(** * chronicle: the GitHub release summarizer

    A shallow embedding of
    [chronicle/release/summarizer/github/summarizer.go] together with the
    properties its design document states about it.

    Go strings are byte sequences, which is what [string] is here.  A
    [time.Time] is an instant on a totally ordered line and is embedded as
    [Z].  A Go function returning [(T, error)] returns a pair whose second
    component is [None] for a nil error. *)

From Stdlib Require Import List Bool Arith ZArith Lia Ascii String.
From Stdlib Require Import DecimalString DecimalZ Permutation.
Import ListNotations.
Open Scope string_scope.
Open Scope list_scope.

(** ** The parts of Go's [strings] and [fmt] packages the summarizer calls *)

Module strings.

(** [strings.HasPrefix(s, prefix)] *)
Definition HasPrefix (s prefix : string) : bool := String.prefix prefix s.

(** [strings.HasSuffix(s, suffix)]:
    [len(s) >= len(suffix) && s[len(s)-len(suffix):] == suffix] *)
Definition HasSuffix (s suffix : string) : bool :=
  Nat.leb (String.length suffix) (String.length s) &&
  String.eqb
    (substring (String.length s - String.length suffix)
               (String.length suffix) s)
    suffix.

(** [strings.TrimSuffix(s, suffix)]: [s] without the trailing [suffix], or
    [s] itself when it does not end with [suffix]. *)
Definition TrimSuffix (s suffix : string) : string :=
  if HasSuffix s suffix
  then substring 0 (String.length s - String.length suffix) s
  else s.

(** Put a byte in front of the first field of a field list. *)
Definition consHead (c : ascii) (fields : list string) : list string :=
  match fields with
  | [] => [String c EmptyString]
  | f :: fs => String c f :: fs
  end.

(** The scan behind [strings.Split] for a non-empty separator: fields are
    cut at the leftmost occurrences of [sep], which do not overlap;
    [skip] counts the bytes of a matched separator still to be passed. *)
Fixpoint splitScan (sep : string) (skip : nat) (s : string) : list string :=
  match s with
  | EmptyString => [EmptyString]
  | String c s' =>
      match skip with
      | S k => splitScan sep k s'
      | O =>
          if String.prefix sep s
          then EmptyString :: splitScan sep (String.length sep - 1) s'
          else consHead c (splitScan sep 0 s')
      end
  end.

(** With an empty separator Go splits after each UTF-8 sequence; the
    summarizer never does that, and bytes stand for the sequences here. *)
Fixpoint explode (s : string) : list string :=
  match s with
  | EmptyString => []
  | String c s' => String c EmptyString :: explode s'
  end.

(** [strings.Split(s, sep)] *)
Definition Split (s sep : string) : list string :=
  match sep with
  | EmptyString => explode s
  | String _ _ => splitScan sep 0 s
  end.

End strings.

Module fmt.

(** The verb [%d] at an [int]. *)
Definition formatInt (n : Z) : string := NilZero.string_of_int (Z.to_int n).

End fmt.

(** ** Data model *)

(** [time.Time]: an instant; only compared, never computed with. *)
Definition Time : Type := Z.

(** Go's [error] values of this package, by where they are made. *)
Inductive error : Type :=
| Upstream (msg : string)
    (* an error handed over by the git or the GitHub collaborator *)
| ErrParseRepo (repoUrl : string)
    (* fmt.Errorf("failed to parse repo=%q URL", repoUrl) *)
| ErrFetchAllReleases (err : error)
    (* fmt.Errorf("unable to fetch all releases: %v", err) *)
| ErrNoLatestRelease.
    (* fmt.Errorf("unable to find latest release") *)

(** What a collaborator hands back: a value or a non-nil error. *)
Inductive result (A : Type) : Type :=
| Ok (a : A)
| Err (err : error).
Arguments Ok {A} a.
Arguments Err {A} err.

Module git.

(** Modelled from the spec: the declaration of [git.Tag] is not among the
    sources; the spec's Reference (Tag) is a name with a timestamp, and
    [Changes] reads the timestamp. *)
Record Tag : Type := { Name : string; Timestamp : Time }.

End git.

Module release.

(** Modelled from the spec: the declaration of [release.Release] is not
    among the sources; these are the two fields the summarizer fills in,
    the spec's version and date. *)
Record Release : Type := { Version : string; Date : Time }.

End release.

Module change.

(** Modelled from the spec: the declaration of [change.Type] is not among
    the sources; the spec's change-type tag is a string. *)
Definition Type_ : Type := string.

(** Modelled from the spec: the declaration of [change.Reference] is not
    among the sources; these are the two fields [Changes] fills in. *)
Module Reference.
Record t : Type := { Text : string; URL : string }.
End Reference.

(** Modelled from the spec: the declaration of [change.Summary] is not
    among the sources; these are the four fields [Changes] fills in, the
    spec's Change Summary. *)
Module Summary.
Record t : Type := {
  Text : string;
  ChangeTypes : list Type_;
  Timestamp : Time;
  References : list Reference.t
}.
End Summary.

End change.

(** Modelled from the spec: the declaration of [issue] is not among the
    sources.  These are the fields [Changes] reads, typed as the spec's
    Remote Issue/PR. *)
Record issue : Type := {
  Title : string;
  Number : Z;
  URL : string;
  Labels : list string;
  ClosedAt : Time
}.

(** Modelled from the spec: the declaration of the release on the wire is
    not among the sources.  [Tag] and [Date] are the fields the summarizer
    reads, [IsDraft] is the spec's draft flag. *)
Record ghRelease : Type := {
  Tag : string;
  Date : Time;
  IsDraft : bool
}.

(** ** The label classification table *)

(** Modelled from the spec: [labelSet] and its methods are not among the
    sources.  A table maps a label name to an ordered set of change types;
    it is kept as an association list so that the order is fixed. *)
Definition labelSet : Type := list (string * list change.Type_).

(** Modelled from the spec: every change type the table gives to [label]. *)
Fixpoint lookupLabel (l : labelSet) (label : string) : list change.Type_ :=
  match l with
  | [] => []
  | (k, cts) :: l' =>
      if String.eqb k label then cts ++ lookupLabel l' label
      else lookupLabel l' label
  end.

(** Modelled from the spec: the union keeps no duplicates; this adds the
    change types of [cts] that [results] does not have yet. *)
Fixpoint addNew (results cts : list change.Type_) : list change.Type_ :=
  match cts with
  | [] => results
  | ct :: cts' =>
      if existsb (String.eqb ct) results then addNew results cts'
      else addNew (results ++ [ct]) cts'
  end.

(** Modelled from the spec: [labelSet.changeTypes(labels...)], the union
    without duplicates of the change types of the given labels, in the
    order the labels give them; unknown labels add nothing. *)
Definition changeTypes (l : labelSet) (labels : list string) : list change.Type_ :=
  fold_left (fun results label => addNew results (lookupLabel l label)) labels [].

(** Modelled from the spec: [labelSet.labels()], every label the table
    knows. *)
Definition labels (l : labelSet) : list string := map fst l.

(** Modelled from the spec: [defaultLabelChangeTypes()], the built-in
    table; the spec names these three entries. *)
Definition defaultLabelChangeTypes : labelSet :=
  [ ("bug", ["fixed"]);
    ("enhancement", ["added"]);
    ("breaking", ["breaking-change"]) ].

(** ** The issue filter pipeline *)

(** Modelled from the spec: [issueFilter], a predicate on an issue; its
    declaration is not among the sources. *)
Definition issueFilter : Type := issue -> bool.

(** Modelled from the spec: [issuesAfter(t)] keeps [issue.closedAt > t]. *)
Definition issuesAfter (since : Time) : issueFilter :=
  fun issue => (since <? ClosedAt issue)%Z.

(** Modelled from the spec: [issuesBefore(t)] keeps [issue.closedAt <= t]. *)
Definition issuesBefore (until : Time) : issueFilter :=
  fun issue => (ClosedAt issue <=? until)%Z.

(** Modelled from the spec: [issuesWithLabel(labels...)] keeps an issue
    whose label set meets the given labels. *)
Definition issuesWithLabel (labels : list string) : issueFilter :=
  fun issue =>
    existsb (fun l => existsb (String.eqb l) labels) (Labels issue).

(** Modelled from the spec: the conjunction inside [filterIssues]; do all
    the filters accept the issue? *)
Fixpoint passes (filters : list issueFilter) (i : issue) : bool :=
  match filters with
  | [] => true
  | f :: filters' => if f i then passes filters' i else false
  end.

(** Modelled from the spec: [filterIssues(issues, filters...)] walks the
    issues in order and keeps those every filter accepts. *)
Fixpoint filterIssues (issues : list issue) (filters : list issueFilter) : list issue :=
  match issues with
  | [] => []
  | i :: issues' =>
      if passes filters i then i :: filterIssues issues' filters
      else filterIssues issues' filters
  end.

(** Modelled from the spec: [latestNonDraftRelease(releases)] scans the
    releases in the order fetched and returns the first whose draft flag
    is false, none when there is no such release. *)
Fixpoint latestNonDraftRelease (releases : list ghRelease) : option ghRelease :=
  match releases with
  | [] => None
  | r :: releases' =>
      if IsDraft r then latestNonDraftRelease releases' else Some r
  end.

(** ** Collaborators and effects *)

(** A call made to a collaborator: the local git interface or the GitHub
    API client. *)
Inductive Call : Type :=
| CallRemoteUrl (path : string)
| CallSearchForTag (path ref : string)
| CallFetchRelease (user repo ref : string)
| CallFetchAllReleases (user repo : string)
| CallFetchClosedIssues (user repo : string).

(** Modelled from the spec: [git.RemoteUrl], [git.SearchForTag],
    [fetchRelease], [fetchAllReleases] and [fetchClosedIssues] are not
    among the sources; the spec has them as capabilities of the git and
    the tracker collaborators that answer or fail.  A world is the state of
    the repository and of the tracker: what each of them answers. *)
Record World : Type := {
  remoteUrlOf : string -> result string;
  tagOf : string -> string -> result git.Tag;
  releaseOf : string -> string -> string -> result ghRelease;
  releasesOf : string -> string -> result (list ghRelease);
  closedIssuesOf : string -> string -> result (list issue)
}.

(** A computation that calls collaborators: it extends the log of the
    calls made so far and yields a value. *)
Definition Exec (A : Type) : Type := list Call -> A * list Call.

Definition ret {A : Type} (a : A) : Exec A := fun log => (a, log).

Definition bind {A B : Type} (m : Exec A) (k : A -> Exec B) : Exec B :=
  fun log => let (a, log') := m log in k a log'.

Notation "x <- m ;; k" := (bind m (fun x => k))
  (at level 61, m at next level, right associativity).

(** Make the call [c], which is answered by [answer]. *)
Definition perform {A : Type} (c : Call) (answer : A) : Exec A :=
  fun log => (answer, log ++ [c]).

(** [git.RemoteUrl(path)] *)
Definition git_RemoteUrl (w : World) (path : string) : Exec (result string) :=
  perform (CallRemoteUrl path) (remoteUrlOf w path).

(** [git.SearchForTag(path, ref)] *)
Definition git_SearchForTag (w : World) (path ref : string) : Exec (result git.Tag) :=
  perform (CallSearchForTag path ref) (tagOf w path ref).

(** [fetchRelease(user, repo, ref)] *)
Definition fetchRelease (w : World) (user repo ref : string) : Exec (result ghRelease) :=
  perform (CallFetchRelease user repo ref) (releaseOf w user repo ref).

(** [fetchAllReleases(user, repo)] *)
Definition fetchAllReleases (w : World) (user repo : string) : Exec (result (list ghRelease)) :=
  perform (CallFetchAllReleases user repo) (releasesOf w user repo).

(** [fetchClosedIssues(user, repo)] *)
Definition fetchClosedIssues (w : World) (user repo : string) : Exec (result (list issue)) :=
  perform (CallFetchClosedIssues user repo) (closedIssuesOf w user repo).

(** ** The summarizer *)

Record ChangeSummarizer : Type := {
  repoPath : string;
  userName : string;
  repoName : string;
  changeTypeByLabel : labelSet
}.

(** The method [Release(ref string)], returning a pointer to a
    [release.Release] and an [error]. *)
Definition Release (w : World) (s : ChangeSummarizer) (ref : string)
  : Exec (option release.Release * option error) :=
  r <- fetchRelease w (userName s) (repoName s) ref ;;
  match r with
  | Err err => ret (None, Some err)
  | Ok targetRelease =>
      ret (Some {| release.Version := Tag targetRelease;
                   release.Date := Date targetRelease |}, None)
  end.

(** The method [TagURL(tag string) string]. *)
Definition TagURL (s : ChangeSummarizer) (tag : string) : string :=
  "https://github.com/" ++ userName s ++ "/" ++ repoName s ++ "/tree/" ++ tag.

(** The method [ChangesURL(sinceRef, untilRef string) string]. *)
Definition ChangesURL (s : ChangeSummarizer) (sinceRef untilRef : string) : string :=
  "https://github.com/" ++ userName s ++ "/" ++ repoName s ++ "/compare/"
    ++ sinceRef ++ "..." ++ untilRef.

(** [func extractGithubUserAndRepo(url string) (string, string)].
    [fields[len(fields)-1]] is the last field; [strings.Split] with a
    separator that is not empty returns at least one field, so the index
    is in range. *)
Definition extractGithubUserAndRepo (url : string) : string * string :=
  if negb (strings.HasPrefix url "git@") then ("", "")
  else
    let fields := strings.Split (strings.TrimSuffix url ".git") ":" in
    let pair := strings.Split (last fields "") "/" in
    match pair with
    | [user; repo] => (user, repo)
    | _ => ("", "")
    end.

(** [func NewChangeSummarizer(path string)], returning a pointer to a
    [ChangeSummarizer] and an [error]. *)
Definition NewChangeSummarizer (w : World) (path : string)
  : Exec (option ChangeSummarizer * option error) :=
  r <- git_RemoteUrl w path ;;
  match r with
  | Err err => ret (None, Some err)
  | Ok repoUrl =>
      let (user, repo) := extractGithubUserAndRepo repoUrl in
      if String.eqb user "" || String.eqb repo ""
      then ret (None, Some (ErrParseRepo repoUrl))
      else ret (Some {| repoPath := path;
                        userName := user;
                        repoName := repo;
                        changeTypeByLabel := defaultLabelChangeTypes |}, None)
  end.

(** The method [LastRelease()], returning a pointer to a [release.Release]
    and an [error]. *)
Definition LastRelease (w : World) (s : ChangeSummarizer)
  : Exec (option release.Release * option error) :=
  r <- fetchAllReleases w (userName s) (repoName s) ;;
  match r with
  | Err err => ret (None, Some (ErrFetchAllReleases err))
  | Ok releases =>
      match latestNonDraftRelease releases with
      | Some latestRelease =>
          ret (Some {| release.Version := Tag latestRelease;
                       release.Date := Date latestRelease |}, None)
      | None => ret (None, Some ErrNoLatestRelease)
      end
  end.

(** One turn of the loop of [Changes] over the filtered issues: the
    summary of [issue] is appended when its change types are not empty. *)
Definition appendSummary (s : ChangeSummarizer)
    (summaries : list change.Summary.t) (issue : issue)
  : list change.Summary.t :=
  let changeTypes := changeTypes (changeTypeByLabel s) (Labels issue) in
  if (0 <? List.length changeTypes)%nat
  then summaries ++
       [ {| change.Summary.Text := Title issue;
            change.Summary.ChangeTypes := changeTypes;
            change.Summary.Timestamp := ClosedAt issue;
            change.Summary.References :=
              [ {| change.Reference.Text := "#" ++ fmt.formatInt (Number issue);
                   change.Reference.URL := URL issue |} ] |} ]
  else summaries.

(** The method [Changes(sinceRef, untilRef string)], returning a slice of
    [change.Summary] and an [error].  The nil slice is the empty list.
    [summarize] is the code from line 103 on, reached with the filters
    built before it.  [filterIssues] is declared in another file of the
    package; it is a parameter here, so that the filters [Changes] hands
    to it can be told whatever it does with them. *)
Definition ChangesWith
    (filterIssues : list issue -> list issueFilter -> list issue)
    (w : World) (s : ChangeSummarizer) (sinceRef untilRef : string)
  : Exec (list change.Summary.t * option error) :=
  r <- fetchClosedIssues w (userName s) (repoName s) ;;
  match r with
  | Err err => ret ([], Some err)
  | Ok allClosedIssues =>
      r <- git_SearchForTag w (repoPath s) sinceRef ;;
      match r with
      | Err err => ret ([], Some err)
      | Ok sinceTag =>
          let filters :=
            [ issuesAfter (git.Timestamp sinceTag);
              issuesWithLabel (labels (changeTypeByLabel s)) ] in
          let summarize (filters : list issueFilter) :=
            let filteredIssues := filterIssues allClosedIssues filters in
            (fold_left (appendSummary s) filteredIssues [], @None error) in
          if negb (String.eqb untilRef "")
          then
            r <- git_SearchForTag w (repoPath s) untilRef ;;
            match r with
            | Err err => ret ([], Some err)
            | Ok untilTag =>
                ret (summarize (filters ++ [issuesBefore (git.Timestamp untilTag)]))
            end
          else ret (summarize filters)
      end
  end.

(** [Changes] with the [filterIssues] modelled from the spec. *)
Definition Changes (w : World) (s : ChangeSummarizer) (sinceRef untilRef : string)
  : Exec (list change.Summary.t * option error) :=
  ChangesWith filterIssues w s sinceRef untilRef.

(** ** Vocabulary of the properties *)

(** Does the byte [c] occur in [s]? *)
Fixpoint hasByte (c : ascii) (s : string) : bool :=
  match s with
  | EmptyString => false
  | String a s' => Ascii.eqb a c || hasByte c s'
  end.

(** The remote URL of SSH shape [git@host:owner/repo.git]. *)
Definition sshRemote (host owner repo : string) : string :=
  "git@" ++ host ++ ":" ++ owner ++ "/" ++ repo ++ ".git".

(** A path segment: not empty, and free of the two separators. *)
Definition segment (s : string) : bool :=
  negb (String.eqb s "") && negb (hasByte ":" s) && negb (hasByte "/" s).

(** The summary the design document gives for an issue: the title, the
    classification, the closing time and the one reference. *)
Definition spec_summary (s : ChangeSummarizer) (i : issue) : change.Summary.t :=
  {| change.Summary.Text := Title i;
     change.Summary.ChangeTypes := changeTypes (changeTypeByLabel s) (Labels i);
     change.Summary.Timestamp := ClosedAt i;
     change.Summary.References :=
       [ {| change.Reference.Text := "#" ++ fmt.formatInt (Number i);
            change.Reference.URL := URL i |} ] |}.

(** Is the classification of the issue not empty? *)
Definition classified (s : ChangeSummarizer) (i : issue) : bool :=
  match changeTypes (changeTypeByLabel s) (Labels i) with
  | [] => false
  | _ :: _ => true
  end.

(** [l1] is [l2] with some elements left out, the others in their order. *)
Inductive subsequence {A : Type} : list A -> list A -> Prop :=
| subseq_nil : subsequence [] []
| subseq_skip : forall x l1 l2, subsequence l1 l2 -> subsequence l1 (x :: l2)
| subseq_keep : forall x l1 l2, subsequence l1 l2 -> subsequence (x :: l1) (x :: l2).

(** The filter set the design document gives to [Changes]: the lower
    bound and the known labels, and the upper bound when there is an until
    tag. *)
Definition spec_filters (s : ChangeSummarizer) (sinceTag : git.Tag)
    (until : option git.Tag) : list issueFilter :=
  [ issuesAfter (git.Timestamp sinceTag);
    issuesWithLabel (labels (changeTypeByLabel s)) ] ++
  match until with
  | Some untilTag => [issuesBefore (git.Timestamp untilTag)]
  | None => []
  end.

(** The list the design document has [Changes] return: one summary for
    each filtered issue that is classified, in the order of the issues. *)
Definition spec_changes (s : ChangeSummarizer) (issues : list issue)
    (filters : list issueFilter) : list change.Summary.t :=
  map (spec_summary s) (filter (classified s) (filterIssues issues filters)).

(** The upper end of the range: no tag when [untilRef] is empty, else the
    tag that git finds for it. *)
Definition untilResolves (w : World) (s : ChangeSummarizer) (untilRef : string)
    (until : option git.Tag) : Prop :=
  match until with
  | None => untilRef = ""
  | Some untilTag =>
      untilRef <> "" /\ tagOf w (repoPath s) untilRef = Ok untilTag
  end.

(** The calls [Changes] makes when nothing fails. *)
Definition changesCalls (s : ChangeSummarizer) (sinceRef untilRef : string)
    (until : option git.Tag) : list Call :=
  [ CallFetchClosedIssues (userName s) (repoName s);
    CallSearchForTag (repoPath s) sinceRef ] ++
  match until with
  | Some _ => [CallSearchForTag (repoPath s) untilRef]
  | None => []
  end.

(** ** Sample repositories *)

(** A world given by its remote URL, its tags, its closed issues and its
    releases; a tag or a release is found by its name. *)
Definition sampleWorld (remote : result string) (tags : list git.Tag)
    (issues : result (list issue)) (releases : result (list ghRelease)) : World :=
  {| remoteUrlOf := fun _ => remote;
     tagOf := fun _ ref =>
       match find (fun t => String.eqb (git.Name t) ref) tags with
       | Some t => Ok t
       | None => Err (Upstream "tag not found")
       end;
     releaseOf := fun _ _ ref =>
       match releases with
       | Err err => Err err
       | Ok rs =>
           match find (fun r => String.eqb (Tag r) ref) rs with
           | Some r => Ok r
           | None => Err (Upstream "release not found")
           end
       end;
     releasesOf := fun _ _ => releases;
     closedIssuesOf := fun _ _ => issues |}.

(** A world that only has a remote URL. *)
Definition remoteOnly (url : string) : World :=
  sampleWorld (Ok url) [] (Err (Upstream "no tracker")) (Err (Upstream "no tracker")).

(** The scenario of the design document: three closed issues around the
    tags [v1.0.0] and [v1.1.0], and a draft release before the others. *)
Definition issue1 : issue :=
  {| Title := "Fix crash on start"; Number := 1%Z;
     URL := "https://github.com/acme/widgets/issues/1";
     Labels := ["bug"]; ClosedAt := 100%Z |}.

Definition issue2 : issue :=
  {| Title := "Rename the project"; Number := 2%Z;
     URL := "https://github.com/acme/widgets/issues/2";
     Labels := ["wontfix"]; ClosedAt := 300%Z |}.

Definition issue3 : issue :=
  {| Title := "Add export"; Number := 3%Z;
     URL := "https://github.com/acme/widgets/pull/3";
     Labels := ["enhancement"]; ClosedAt := 400%Z |}.

(** Another issue that gives the summary of [issue3]: only its labels
    differ, and they classify alike. *)
Definition issue3relabelled : issue :=
  {| Title := "Add export"; Number := 3%Z;
     URL := "https://github.com/acme/widgets/pull/3";
     Labels := ["enhancement"; "wontfix"]; ClosedAt := 400%Z |}.

Definition sampleTags : list git.Tag :=
  [ {| git.Name := "v1.0.0"; git.Timestamp := 200%Z |};
    {| git.Name := "v1.1.0"; git.Timestamp := 400%Z |} ].

Definition sampleReleases : list ghRelease :=
  [ {| Tag := "v1.2.0"; Date := 500%Z; IsDraft := true |};
    {| Tag := "v1.1.0"; Date := 400%Z; IsDraft := false |};
    {| Tag := "v1.0.0"; Date := 200%Z; IsDraft := false |} ].

Definition acmeWorld : World :=
  sampleWorld (Ok "git@github.com:acme/widgets.git") sampleTags
    (Ok [issue1; issue2; issue3]) (Ok sampleReleases).

(** The same repository while the tracker is down. *)
Definition offlineWorld : World :=
  sampleWorld (Ok "git@github.com:acme/widgets.git") sampleTags
    (Err (Upstream "tracker unreachable")) (Err (Upstream "tracker unreachable")).

Definition acmeWidgets : ChangeSummarizer :=
  {| repoPath := "."; userName := "acme"; repoName := "widgets";
     changeTypeByLabel := defaultLabelChangeTypes |}.

(** ** The application configuration ([internal/config/application.go]) *)

Module logger.

(** [logger.Level] of go-logger, a string type. *)
Definition Level : Type := string.

End logger.

Module viper.

(** A default handed to [v.SetDefault]. *)
Inductive Value : Type :=
| BoolValue (b : bool)
| StringValue (s : string).

(** A call made on the viper object, in the order made.  [ConfigFileUsed]
    only reads and is not kept. *)
Inductive Call : Type :=
| AutomaticEnv
| SetEnvPrefix (prefix : string)
| SetEnvKeyReplacer (oldnew : list string)
| SetConfigFile (file : string)
| AddConfigPath (dir : string)
| SetConfigName (name : string)
| SetDefault (key : string) (value : Value)
| ReadInConfig
| Unmarshal.

(** An error of [v.ReadInConfig()]: is it a
    [viper.ConfigFileNotFoundError], and its message. *)
Record Error : Type := {
  configFileNotFound : bool;
  message : string
}.

End viper.

Module config.

Set Implicit Arguments.

(** The errors of this package, by where they are made, and the errors
    that come from outside of it. *)
Inductive error : Type :=
| Foreign (configFileNotFound : bool) (msg : string)
    (* an error of viper, of go-logger or of the parser of a field; the
       flag tells a viper.ConfigFileNotFoundError *)
| ErrApplicationConfigNotFound
    (* fmt.Errorf("application config not found") *)
| ErrSpeculateWithUntil
    (* errors.New("cannot specify both --speculate-next-version and --until-tag") *)
| ErrBadLogLevel (level : string) (err : error)
    (* fmt.Errorf("bad log level configured (%q): %w", cfg.Log.Level, err) *)
| ErrReadConfig (configPath : string) (err : error)
    (* fmt.Errorf("unable to read application config=%q : %w", configPath, err) *)
| ErrParseConfigFile (used : string) (err : error)
    (* fmt.Errorf("unable to parse config=%q: %w", v.ConfigFileUsed(), err) *)
| ErrUnmarshal (err : error)
    (* fmt.Errorf("unable to parse config: %w", err) *)
| ErrInvalidConfig (err : error).
    (* fmt.Errorf("invalid application config: %w", err) *)

(** [errors.Is(err, ErrApplicationConfigNotFound)]: the chain of [%w] is
    followed; an error from outside does not hold the value of this
    package. *)
Fixpoint isApplicationConfigNotFound (err : error) : bool :=
  match err with
  | ErrApplicationConfigNotFound => true
  | ErrBadLogLevel _ e | ErrReadConfig _ e | ErrParseConfigFile _ e
  | ErrUnmarshal e | ErrInvalidConfig e => isApplicationConfigNotFound e
  | Foreign _ _ | ErrSpeculateWithUntil => false
  end.

(** [errors.As(err, &viper.ConfigFileNotFoundError{})] *)
Fixpoint asConfigFileNotFound (err : error) : bool :=
  match err with
  | Foreign notFound _ => notFound
  | ErrBadLogLevel _ e | ErrReadConfig _ e | ErrParseConfigFile _ e
  | ErrUnmarshal e | ErrInvalidConfig e => asConfigFileNotFound e
  | ErrApplicationConfigNotFound | ErrSpeculateWithUntil => false
  end.

(** What a library hands back: a value or a non-nil error. *)
Inductive outcome (A : Type) : Type :=
| Done (a : A)
| Failed (err : error).
Arguments Failed {A} err.

(** [type logging struct] *)
Record logging : Type := {
  Structured : bool;
  LevelOpt : logger.Level;
  Level : string;
  FileLocation : string
}.

(** [CliOnlyOptions] is declared in another file; these are the two fields
    this file reads. *)
Module CliOnlyOptions.
Record t : Type := {
  ConfigPath : string;
  Verbosity : Z
}.
End CliOnlyOptions.

(** [type Application struct]; [githubSummarizer] is declared in another
    file and nothing of it is read here. *)
Record Application (githubSummarizer : Type) : Type := {
  ConfigPath : string;
  Output : string;
  Quiet : bool;
  Log : logging;
  CliOptions : CliOnlyOptions.t;
  SpeculateNextVersion : bool;
  VersionFile : string;
  SinceTag : string;
  UntilTag : string;
  EnforceV0 : bool;
  Title : string;
  Github : githubSummarizer
}.

(** Computations on the viper object: they extend the calls made on it. *)
Definition M (A : Type) : Type := list viper.Call -> A * list viper.Call.

Definition ret (A : Type) (a : A) : M A := fun calls => (a, calls).

Definition bind (A B : Type) (m : M A) (k : A -> M B) : M B :=
  fun calls => let (a, calls') := m calls in k a calls'.

Notation "x <~ m ;; k" := (bind m (fun x => k))
  (at level 61, m at next level, right associativity).

Definition call (c : viper.Call) : M unit := fun calls => (tt, calls ++ [c]).

(** What this file takes from outside: the constants and the parser of
    go-logger, [strings.ToLower], the application name, the home and the
    XDG directories, [path.Join], the answers of viper, and the methods
    that the types of the fields declared in other files may have
    ([None]: the type has no such method). *)
Record Env (githubSummarizer : Type) : Type := {
  DisabledLevel : logger.Level;
  WarnLevel : logger.Level;
  InfoLevel : logger.Level;
  DebugLevel : logger.Level;
  TraceLevel : logger.Level;
  LevelFromString : string -> outcome logger.Level;
  ToLower : string -> string;
  ApplicationName : string;
  homedirDir : outcome string;
  xdgConfigHome : string;
  xdgConfigDirs : list string;
  pathJoin : string -> string -> string;
  readInConfig : list viper.Call -> option viper.Error;
  configFileUsed : list viper.Call -> string;
  unmarshal : list viper.Call -> Application githubSummarizer ->
              Application githubSummarizer * option error;
  zeroGithub : githubSummarizer;
  cliLoader : option (CliOnlyOptions.t -> M unit);
  githubLoader : option (githubSummarizer -> M unit);
  loggingParser : option (logging -> logging * option error);
  cliParser : option (CliOnlyOptions.t -> CliOnlyOptions.t * option error);
  githubParser : option (githubSummarizer -> githubSummarizer * option error)
}.

(** Assignments to fields. *)
Definition withLevelOpt (l : logging) (lvl : logger.Level) : logging :=
  {| Structured := Structured l; LevelOpt := lvl; Level := Level l;
     FileLocation := FileLocation l |}.

Definition withLevel (l : logging) (level : string) : logging :=
  {| Structured := Structured l; LevelOpt := LevelOpt l; Level := level;
     FileLocation := FileLocation l |}.

Definition withLog (G : Type) (cfg : Application G) (l : logging) : Application G :=
  {| ConfigPath := ConfigPath cfg; Output := Output cfg; Quiet := Quiet cfg;
     Log := l; CliOptions := CliOptions cfg;
     SpeculateNextVersion := SpeculateNextVersion cfg;
     VersionFile := VersionFile cfg; SinceTag := SinceTag cfg;
     UntilTag := UntilTag cfg; EnforceV0 := EnforceV0 cfg; Title := Title cfg;
     Github := Github cfg |}.

Definition withCliOptions (G : Type) (cfg : Application G)
    (o : CliOnlyOptions.t) : Application G :=
  {| ConfigPath := ConfigPath cfg; Output := Output cfg; Quiet := Quiet cfg;
     Log := Log cfg; CliOptions := o;
     SpeculateNextVersion := SpeculateNextVersion cfg;
     VersionFile := VersionFile cfg; SinceTag := SinceTag cfg;
     UntilTag := UntilTag cfg; EnforceV0 := EnforceV0 cfg; Title := Title cfg;
     Github := Github cfg |}.

Definition withGithub (G : Type) (cfg : Application G) (g : G) : Application G :=
  {| ConfigPath := ConfigPath cfg; Output := Output cfg; Quiet := Quiet cfg;
     Log := Log cfg; CliOptions := CliOptions cfg;
     SpeculateNextVersion := SpeculateNextVersion cfg;
     VersionFile := VersionFile cfg; SinceTag := SinceTag cfg;
     UntilTag := UntilTag cfg; EnforceV0 := EnforceV0 cfg; Title := Title cfg;
     Github := g |}.

Definition withConfigPath (G : Type) (cfg : Application G) (p : string)
  : Application G :=
  {| ConfigPath := p; Output := Output cfg; Quiet := Quiet cfg;
     Log := Log cfg; CliOptions := CliOptions cfg;
     SpeculateNextVersion := SpeculateNextVersion cfg;
     VersionFile := VersionFile cfg; SinceTag := SinceTag cfg;
     UntilTag := UntilTag cfg; EnforceV0 := EnforceV0 cfg; Title := Title cfg;
     Github := Github cfg |}.

(** [func (cfg logging) loadDefaultValues(v *viper.Viper)] *)
Definition logging_loadDefaultValues (G : Type) (e : Env G) (cfg : logging) : M unit :=
  _ <~ call (viper.SetDefault "log.structured" (viper.BoolValue false)) ;;
  call (viper.SetDefault "log.level" (viper.StringValue (WarnLevel e))).

(** The method [loadDefaultValues] of a field whose type may have it. *)
Definition loadField (F : Type) (loader : option (F -> M unit)) (f : F) : M unit :=
  match loader with
  | Some load => load f
  | None => ret tt
  end.

(** [func (cfg Application) loadDefaultValues(v *viper.Viper)].  The loop
    visits the fields in the order declared; only [Log], [CliOptions] and
    [Github] have a type that can have methods. *)
Definition loadDefaultValues (G : Type) (e : Env G) (cfg : Application G) : M unit :=
  _ <~ logging_loadDefaultValues e (Log cfg) ;;
  _ <~ loadField (cliLoader e) (CliOptions cfg) ;;
  loadField (githubLoader e) (Github cfg).

(** [func newApplicationConfig(v *viper.Viper, cliOpts CliOnlyOptions)] *)
Definition newApplicationConfig (G : Type) (e : Env G) (cliOpts : CliOnlyOptions.t)
  : M (Application G) :=
  let config :=
    {| ConfigPath := ""; Output := ""; Quiet := false;
       Log := {| Structured := false; LevelOpt := ""; Level := "";
                 FileLocation := "" |};
       CliOptions := cliOpts;
       SpeculateNextVersion := false; VersionFile := ""; SinceTag := "";
       UntilTag := ""; EnforceV0 := false; Title := "";
       Github := zeroGithub e |} in
  _ <~ loadDefaultValues e config ;;
  ret config.

(** The method [parseConfigValues] of a field whose type may have it; it
    works on the field in place. *)
Definition parseField (F : Type) (parser : option (F -> F * option error)) (f : F)
  : F * option error :=
  match parser with
  | Some parse => parse f
  | None => (f, None)
  end.

(** The loop that ends [parseConfigValues]: the parsers of the fields, in
    the order declared, up to the first error. *)
Definition parseFields (G : Type) (e : Env G) (cfg : Application G)
  : Application G * option error :=
  let (l, err) := parseField (loggingParser e) (Log cfg) in
  let cfg := withLog cfg l in
  match err with
  | Some err => (cfg, Some err)
  | None =>
      let (o, err) := parseField (cliParser e) (CliOptions cfg) in
      let cfg := withCliOptions cfg o in
      match err with
      | Some err => (cfg, Some err)
      | None =>
          let (g, err) := parseField (githubParser e) (Github cfg) in
          let cfg := withGithub cfg g in
          match err with
          | Some err => (cfg, Some err)
          | None => (cfg, None)
          end
      end
  end.

(** The method [parseConfigValues] of [Application], which has a pointer
    receiver: the configuration as it is left, and the error. *)
Definition parseConfigValues (G : Type) (e : Env G) (cfg : Application G)
  : Application G * option error :=
  if SpeculateNextVersion cfg && negb (String.eqb (UntilTag cfg) "")
  then (cfg, Some ErrSpeculateWithUntil)
  else if Quiet cfg
  then parseFields e (withLog cfg (withLevelOpt (Log cfg) (DisabledLevel e)))
  else if (0 <? CliOnlyOptions.Verbosity (CliOptions cfg))%Z
  then
    let v := CliOnlyOptions.Verbosity (CliOptions cfg) in
    let lvl :=
      if (v =? 1)%Z then InfoLevel e
      else if (v =? 2)%Z then DebugLevel e
      else if (3 <=? v)%Z then TraceLevel e
      else WarnLevel e in
    parseFields e (withLog cfg (withLevel (withLevelOpt (Log cfg) lvl) lvl))
  else
    match LevelFromString e (ToLower e (Level (Log cfg))) with
    | Failed err => (cfg, Some (ErrBadLogLevel (Level (Log cfg)) err))
    | Done lvl => parseFields e (withLog cfg (withLevelOpt (Log cfg) lvl))
    end.

(** [v.ReadInConfig()], answered from the calls made so far. *)
Definition ReadInConfig (G : Type) (e : Env G) : M (option error) :=
  fun calls =>
    (match readInConfig e calls with
     | Some err =>
         Some (Foreign (viper.configFileNotFound err) (viper.message err))
     | None => None
     end,
     calls ++ [viper.ReadInConfig]).

(** [v.ConfigFileUsed()] *)
Definition ConfigFileUsed (G : Type) (e : Env G) : M string :=
  fun calls => (configFileUsed e calls, calls).

(** [v.Unmarshal(config)]: the configuration as it is left, and the
    error. *)
Definition Unmarshal (G : Type) (e : Env G) (config : Application G)
  : M (Application G * option error) :=
  fun calls => (unmarshal e calls config, calls ++ [viper.Unmarshal]).

(** One step of the search of [readConfig]:
    [if err = v.ReadInConfig(); err == nil { return nil } else if
    !errors.As(err, &viper.ConfigFileNotFoundError{}) { return ... }],
    and [next] is what follows when neither returns. *)
Definition tryRead (G : Type) (e : Env G) (next : M (option error))
  : M (option error) :=
  err <~ ReadInConfig e ;;
  match err with
  | None => ret None
  | Some err =>
      if negb (asConfigFileNotFound err)
      then
        used <~ ConfigFileUsed e ;;
        ret (Some (ErrParseConfigFile used err))
      else next
  end.

(** The loop [for _, dir := range xdg.ConfigDirs] of [readConfig]. *)
Fixpoint addConfigPaths (G : Type) (e : Env G) (dirs : list string) : M unit :=
  match dirs with
  | [] => ret tt
  | dir :: dirs' =>
      _ <~ call (viper.AddConfigPath (pathJoin e dir (ApplicationName e))) ;;
      addConfigPaths e dirs'
  end.

(** The fourth step of the search of [readConfig] and its end (lines
    200-212): the XDG directories, then the error of no configuration
    found. *)
Definition searchXdg (G : Type) (e : Env G) : M (option error) :=
  _ <~ call (viper.AddConfigPath
               (pathJoin e (xdgConfigHome e) (ApplicationName e))) ;;
  _ <~ addConfigPaths e (xdgConfigDirs e) ;;
  _ <~ call (viper.SetConfigName "config") ;;
  tryRead e (ret (Some ErrApplicationConfigNotFound)).

(** [func readConfig(v *viper.Viper, configPath string) error] *)
Definition readConfig (G : Type) (e : Env G) (configPath : string)
  : M (option error) :=
  _ <~ call viper.AutomaticEnv ;;
  _ <~ call (viper.SetEnvPrefix (ApplicationName e)) ;;
  _ <~ call (viper.SetEnvKeyReplacer ["."; "_"; "-"; "_"]) ;;
  if negb (String.eqb configPath "")
  then
    _ <~ call (viper.SetConfigFile configPath) ;;
    err <~ ReadInConfig e ;;
    match err with
    | Some err => ret (Some (ErrReadConfig configPath err))
    | None => ret None
    end
  else
    _ <~ call (viper.AddConfigPath ".") ;;
    _ <~ call (viper.SetConfigName ("." ++ ApplicationName e)) ;;
    tryRead e (
      _ <~ call (viper.AddConfigPath ("." ++ ApplicationName e)) ;;
      _ <~ call (viper.SetConfigName "config") ;;
      tryRead e (
        match homedirDir e with
        | Done home =>
            _ <~ call (viper.AddConfigPath home) ;;
            _ <~ call (viper.SetConfigName ("." ++ ApplicationName e)) ;;
            tryRead e (searchXdg e)
        | Failed _ => searchXdg e
        end)).

(** The end of [LoadApplicationConfig] (lines 61-70), reached when
    [readConfig] gave no error or only the error of no configuration
    found: unmarshal, note the file used, parse. *)
Definition finishLoad (G : Type) (e : Env G) (config : Application G)
  : M (option (Application G) * option error) :=
  r <~ Unmarshal e config ;;
  let (config, err) := r in
  match err with
  | Some err => ret (None, Some (ErrUnmarshal err))
  | None =>
      used <~ ConfigFileUsed e ;;
      let config := withConfigPath config used in
      let (config, err) := parseConfigValues e config in
      match err with
      | Some err => ret (None, Some (ErrInvalidConfig err))
      | None => ret (Some config, None)
      end
  end.

(** [func LoadApplicationConfig(v *viper.Viper, cliOpts CliOnlyOptions)],
    returning a pointer to an [Application] and an [error]. *)
Definition LoadApplicationConfig (G : Type) (e : Env G) (cliOpts : CliOnlyOptions.t)
  : M (option (Application G) * option error) :=
  config <~ newApplicationConfig e cliOpts ;;
  err <~ readConfig e (CliOnlyOptions.ConfigPath cliOpts) ;;
  if match err with
     | Some err => negb (isApplicationConfigNotFound err)
     | None => false
     end
  then ret (None, err)
  else finishLoad e config.

Unset Implicit Arguments.

End config.

(** ** Vocabulary of the properties of the configuration *)

(** The fields of the configuration that are plain values. *)
Definition plainFields (G : Type) (cfg : config.Application G)
  : string * string * bool * bool * string * string * string * bool * string :=
  (config.ConfigPath cfg, config.Output cfg, config.Quiet cfg,
   config.SpeculateNextVersion cfg, config.VersionFile cfg,
   config.SinceTag cfg, config.UntilTag cfg, config.EnforceV0 cfg,
   config.Title cfg).
Arguments plainFields {G} cfg.

(** Both [--speculate-next-version] and [--until-tag] are given. *)
Definition speculateWithUntil (G : Type) (cfg : config.Application G) : bool :=
  config.SpeculateNextVersion cfg && negb (String.eqb (config.UntilTag cfg) "").
Arguments speculateWithUntil {G} cfg.

(** The types of the fields have no [parseConfigValues] of their own. *)
Definition noFieldParsers (G : Type) (e : config.Env G) : Prop :=
  config.loggingParser e = None /\ config.cliParser e = None /\
  config.githubParser e = None.
Arguments noFieldParsers {G} e.

(** The calls with which [readConfig] begins. *)
Definition envCalls (G : Type) (e : config.Env G) : list viper.Call :=
  [ viper.AutomaticEnv;
    viper.SetEnvPrefix (config.ApplicationName e);
    viper.SetEnvKeyReplacer ["."; "_"; "-"; "_"] ].
Arguments envCalls {G} e.

(** The calls of the whole search of [readConfig], in its order: the
    working directory, the hidden directory in it, the home directory
    when there is one, the XDG directories. *)
Definition searchCalls (G : Type) (e : config.Env G) : list viper.Call :=
  let app := config.ApplicationName e in
  [ viper.AddConfigPath "."; viper.SetConfigName ("." ++ app);
    viper.ReadInConfig;
    viper.AddConfigPath ("." ++ app); viper.SetConfigName "config";
    viper.ReadInConfig ] ++
  match config.homedirDir e with
  | config.Done home =>
      [ viper.AddConfigPath home; viper.SetConfigName ("." ++ app);
        viper.ReadInConfig ]
  | config.Failed _ => []
  end ++
  [ viper.AddConfigPath (config.pathJoin e (config.xdgConfigHome e) app) ] ++
  map (fun dir => viper.AddConfigPath (config.pathJoin e dir app))
      (config.xdgConfigDirs e) ++
  [ viper.SetConfigName "config"; viper.ReadInConfig ].
Arguments searchCalls {G} e.

(** The number of reads among some calls. *)
Definition reads (calls : list viper.Call) : nat :=
  List.length
    (filter (fun c => match c with viper.ReadInConfig => true | _ => false end)
            calls).

(** What justifies the return of the search of [readConfig]: the last
    call is a read, between one and [k] reads were made, and the return
    is what that read calls for. *)
Definition justified (G : Type) (e : config.Env G) (before : list viper.Call)
    (k : nat) (out : option config.error * list viper.Call) : Prop :=
  exists h,
    snd out = h ++ [viper.ReadInConfig] /\
    reads before < reads (snd out) <= reads before + k /\
    match fst out with
    | None => config.readInConfig e h = None
    | Some config.ErrApplicationConfigNotFound =>
        exists msg,
          config.readInConfig e h =
          Some {| viper.configFileNotFound := true; viper.message := msg |}
    | Some (config.ErrParseConfigFile used (config.Foreign false msg)) =>
        config.readInConfig e h =
          Some {| viper.configFileNotFound := false; viper.message := msg |} /\
        used = config.configFileUsed e (snd out)
    | Some _ => False
    end.
Arguments justified {G} e before k out.

(** ** A sample environment for the configuration *)

(** Lower case of an ASCII letter. *)
Definition asciiLower (c : ascii) : ascii :=
  let n := nat_of_ascii c in
  if (65 <=? n)%nat && (n <=? 90)%nat then ascii_of_nat (n + 32) else c.

Fixpoint lowerASCII (s : string) : string :=
  match s with
  | EmptyString => EmptyString
  | String c s' => String (asciiLower c) (lowerASCII s')
  end.

(** An environment with the level names of go-logger, the application
    name [chronicle], no methods on the fields declared elsewhere, and
    the answers of viper given: [reads] for [ReadInConfig], [file] for
    what [Unmarshal] loads. *)
Definition sampleEnv (reads : list viper.Call -> option viper.Error)
    (file : config.Application unit -> config.Application unit * option config.error)
  : config.Env unit :=
  {| config.DisabledLevel := "";
     config.WarnLevel := "warn";
     config.InfoLevel := "info";
     config.DebugLevel := "debug";
     config.TraceLevel := "trace";
     config.LevelFromString := fun l =>
       if existsb (String.eqb l) ["error"; "warn"; "info"; "debug"; "trace"]
       then config.Done l
       else config.Failed (config.Foreign false "not a log level");
     config.ToLower := lowerASCII;
     config.ApplicationName := "chronicle";
     config.homedirDir := config.Done "/home/dev";
     config.xdgConfigHome := "/home/dev/.config";
     config.xdgConfigDirs := ["/etc/xdg"];
     config.pathJoin := fun a b => (a ++ "/" ++ b)%string;
     config.readInConfig := reads;
     config.configFileUsed := fun _ => "";
     config.unmarshal := fun _ cfg => file cfg;
     config.zeroGithub := tt;
     config.cliLoader := None;
     config.githubLoader := None;
     config.loggingParser := None;
     config.cliParser := None;
     config.githubParser := None |}.

(** No configuration file anywhere. *)
Definition noConfigFile : list viper.Call -> option viper.Error :=
  fun _ => Some {| viper.configFileNotFound := true;
                   viper.message := "Config File Not Found" |}.

(** A configuration as the flags and the configuration file may leave
    it before it is parsed, given by [-q], the count of [-v] and the
    level text. *)
Definition sampleConfig (quiet : bool) (verbosity : Z) (level : string)
  : config.Application unit :=
  {| config.ConfigPath := ""; config.Output := "md"; config.Quiet := quiet;
     config.Log := {| config.Structured := false; config.LevelOpt := "";
                      config.Level := level; config.FileLocation := "" |};
     config.CliOptions :=
       {| config.CliOnlyOptions.ConfigPath := "";
          config.CliOnlyOptions.Verbosity := verbosity |};
     config.SpeculateNextVersion := false; config.VersionFile := "VERSION";
     config.SinceTag := "v1.0.0"; config.UntilTag := "";
     config.EnforceV0 := false; config.Title := "Changelog";
     config.Github := tt |}.

(** ** Proof steps *)

(** Run the calls of a computation on the log at hand. *)
Ltac run_exec :=
  unfold git_RemoteUrl, git_SearchForTag, fetchRelease, fetchAllReleases,
    fetchClosedIssues, bind, perform, ret.

Example Split_colon :
  strings.Split "git@github.com:acme/widgets" ":" = ["git@github.com"; "acme/widgets"].
Proof. reflexivity. Qed.

Example Split_wide_sep : strings.Split "a::b:::c" "::" = ["a"; "b"; ":c"].
Proof. reflexivity. Qed.

Example Split_absent : strings.Split "abc" "/" = ["abc"].
Proof. reflexivity. Qed.

Example Split_edges : strings.Split "/a/" "/" = [""; "a"; ""].
Proof. reflexivity. Qed.

Example TrimSuffix_git :
  strings.TrimSuffix "git@github.com:acme/widgets.git" ".git" = "git@github.com:acme/widgets".
Proof. reflexivity. Qed.

Example TrimSuffix_none : strings.TrimSuffix "widgets" ".git" = "widgets".
Proof. reflexivity. Qed.

Example formatInt_samples :
  (fmt.formatInt 42, fmt.formatInt 0, fmt.formatInt (-7)) = ("42", "0", "-7").
Proof. reflexivity. Qed.

(** ** Facts about the string functions *)

Section StringFacts.

Lemma length_app (a b : string) :
  String.length (a ++ b) = String.length a + String.length b.
Proof. induction a as [|c a IH]; simpl; [reflexivity | now rewrite IH]. Qed.

Lemma substring_app_tail (a b : string) :
  substring (String.length a) (String.length b) (a ++ b) = b.
Proof.
  induction a as [|c a IH]; simpl.
  - induction b as [|c b IH]; simpl; [reflexivity | now rewrite IH].
  - exact IH.
Qed.

Lemma substring_app_head (a b : string) :
  substring 0 (String.length a) (a ++ b) = a.
Proof.
  induction a as [|c a IH]; simpl.
  - now destruct b.
  - now rewrite IH.
Qed.

Lemma HasSuffix_app (a suffix : string) :
  strings.HasSuffix (a ++ suffix) suffix = true.
Proof.
  unfold strings.HasSuffix. rewrite length_app.
  replace (String.length a + String.length suffix - String.length suffix)
    with (String.length a) by lia.
  rewrite substring_app_tail, String.eqb_refl, andb_true_r.
  apply Nat.leb_le. lia.
Qed.

Lemma TrimSuffix_app (a suffix : string) :
  strings.TrimSuffix (a ++ suffix) suffix = a.
Proof.
  unfold strings.TrimSuffix. rewrite HasSuffix_app, length_app.
  replace (String.length a + String.length suffix - String.length suffix)
    with (String.length a) by lia.
  apply substring_app_head.
Qed.

Lemma HasPrefix_app (p s : string) : strings.HasPrefix (p ++ s) p = true.
Proof.
  unfold strings.HasPrefix. induction p as [|c p IH]; simpl.
  - now destruct s.
  - destruct (ascii_dec c c) as [_|ne]; [exact IH | now elim ne].
Qed.

(** One step of [strings.Split] at a separator of one byte. *)
Lemma Split_step (d c : ascii) (s : string) :
  strings.Split (String c s) (String d "") =
  if Ascii.eqb c d then "" :: strings.Split s (String d "")
  else strings.consHead c (strings.Split s (String d "")).
Proof.
  unfold strings.Split. simpl.
  destruct (ascii_dec d c) as [e|ne].
  - subst. rewrite Ascii.eqb_refl. now destruct s.
  - destruct (Ascii.eqb_spec c d) as [e|_]; [now subst; elim ne | reflexivity].
Qed.

Lemma Split_empty (d : ascii) : strings.Split "" (String d "") = [""].
Proof. reflexivity. Qed.

(** The index [len(fields)-1] is in range. *)
Lemma Split_not_nil (s : string) (d : ascii) (sep : string) :
  strings.Split s (String d sep) <> [].
Proof.
  unfold strings.Split. generalize 0 as skip.
  induction s as [|c s IH]; intros skip; cbn [strings.splitScan];
    [discriminate|].
  destruct skip; [|apply IH].
  destruct (String.prefix _ _); [discriminate|].
  specialize (IH 0).
  destruct (strings.splitScan _ 0 s); [now elim IH | discriminate].
Qed.

(** A string without the separator is one field. *)
Lemma Split_absent_byte (d : ascii) (s : string) :
  hasByte d s = false -> strings.Split s (String d "") = [s].
Proof.
  induction s as [|c s IH]; intros H; [reflexivity|].
  simpl in H. apply orb_false_iff in H as [Hc Hs].
  rewrite Split_step, Hc, IH by exact Hs. reflexivity.
Qed.

(** The first field ends at the first separator. *)
Lemma Split_first (d : ascii) (a b : string) :
  hasByte d a = false ->
  strings.Split (a ++ String d b) (String d "") =
  a :: strings.Split b (String d "").
Proof.
  induction a as [|c a IH]; intros H; cbn [append].
  - now rewrite Split_step, Ascii.eqb_refl.
  - simpl in H. apply orb_false_iff in H as [Hc Ha].
    rewrite Split_step, Hc, IH by exact Ha. reflexivity.
Qed.

Lemma last_app_r {A : Type} (l1 l2 : list A) (d : A) :
  l2 <> [] -> last (l1 ++ l2) d = last l2 d.
Proof.
  intros H. induction l1 as [|x l1 IH]; [reflexivity|].
  simpl. rewrite IH. destruct (l1 ++ l2) eqn:E; [|reflexivity].
  apply app_eq_nil in E as [_ E]. now elim H.
Qed.

(** What stands before a separator does not reach the fields after it. *)
Lemma Split_after (d : ascii) (a b : string) :
  exists front, front <> [] /\
    strings.Split (a ++ String d b) (String d "") =
    front ++ strings.Split b (String d "").
Proof.
  induction a as [|c a (front & Hne & IH)]; cbn [append].
  - exists [""]. split; [discriminate|].
    now rewrite Split_step, Ascii.eqb_refl.
  - rewrite Split_step, IH. destruct (Ascii.eqb c d).
    + exists ("" :: front). split; [discriminate | reflexivity].
    + destruct front as [|f front]; [now elim Hne|].
      exists (String c f :: front). split; [discriminate | reflexivity].
Qed.

(** The last field is the last field of what follows any separator. *)
Lemma Split_last (d : ascii) (a b : string) :
  last (strings.Split (a ++ String d b) (String d "")) "" =
  last (strings.Split b (String d "")) "".
Proof.
  destruct (Split_after d a b) as (front & _ & E).
  rewrite E. apply last_app_r, Split_not_nil.
Qed.

End StringFacts.

(** ** Repository coordinates *)

Section Coordinates.

Lemma app_assoc_string (a b c : string) :
  ((a ++ b) ++ c = a ++ (b ++ c))%string.
Proof. induction a as [|x a IH]; simpl; [reflexivity | now rewrite IH]. Qed.

Lemma hasByte_app (c : ascii) (a b : string) :
  hasByte c (a ++ b) = hasByte c a || hasByte c b.
Proof.
  induction a as [|x a IH]; simpl; [reflexivity|].
  now rewrite IH, orb_assoc.
Qed.

Lemma segment_inv (s : string) :
  segment s = true ->
  s <> "" /\ hasByte ":" s = false /\ hasByte "/" s = false.
Proof.
  unfold segment. intros H.
  apply andb_true_iff in H as [H H3]. apply andb_true_iff in H as [H1 H2].
  apply negb_true_iff in H1, H2, H3.
  apply String.eqb_neq in H1. auto.
Qed.

(** The SSH shape, regrouped the way the parser takes it apart. *)
Lemma sshRemote_parts (host owner repo : string) :
  sshRemote host owner repo =
  ((("git@" ++ host) ++ String ":" (owner ++ String "/" repo)) ++ ".git")%string.
Proof.
  unfold sshRemote. rewrite !app_assoc_string. cbn [append].
  rewrite !app_assoc_string. reflexivity.
Qed.

(** The parser's view of a remote of SSH shape: only what follows the
    host is looked at. *)
Lemma extract_sshRemote (host owner repo : string) :
  extractGithubUserAndRepo (sshRemote host owner repo) =
  match strings.Split
          (last (strings.Split (owner ++ String "/" repo) ":") "") "/" with
  | [user; repo'] => (user, repo')
  | _ => ("", "")
  end.
Proof.
  unfold extractGithubUserAndRepo.
  replace (strings.HasPrefix (sshRemote host owner repo) "git@") with true
    by (symmetry; apply (HasPrefix_app "git@")).
  cbn [negb]. rewrite sshRemote_parts, TrimSuffix_app, Split_last.
  reflexivity.
Qed.

Lemma extract_segments (host owner repo : string) :
  hasByte ":" owner = false -> hasByte "/" owner = false ->
  hasByte ":" repo = false -> hasByte "/" repo = false ->
  extractGithubUserAndRepo (sshRemote host owner repo) = (owner, repo).
Proof.
  intros Ho1 Ho2 Hr1 Hr2. rewrite extract_sshRemote.
  rewrite (Split_absent_byte ":" (owner ++ String "/" repo)).
  - cbn [last]. rewrite Split_first by exact Ho2.
    rewrite Split_absent_byte by exact Hr2. reflexivity.
  - change (String "/" repo) with ("/" ++ repo)%string.
    rewrite !hasByte_app, Ho1, Hr1. reflexivity.
Qed.

(** The result of a construction that got [repoUrl] from git. *)
Lemma NewChangeSummarizer_run (w : World) (path : string) (log : list Call)
    (repoUrl : string) :
  remoteUrlOf w path = Ok repoUrl ->
  NewChangeSummarizer w path log =
  (let (user, repo) := extractGithubUserAndRepo repoUrl in
   if String.eqb user "" || String.eqb repo ""
   then (None, Some (ErrParseRepo repoUrl))
   else (Some {| repoPath := path; userName := user; repoName := repo;
                 changeTypeByLabel := defaultLabelChangeTypes |}, None),
   log ++ [CallRemoteUrl path]).
Proof.
  intros H. unfold NewChangeSummarizer. run_exec.
  rewrite H. destruct (extractGithubUserAndRepo repoUrl) as [user repo].
  now destruct (String.eqb user "" || String.eqb repo "").
Qed.

End Coordinates.

(** C5.  Constructing a summarizer from a repository whose remote URL is
    [git@github.com:acme/widgets.git] succeeds with owner [acme] and
    repository [widgets]; on the summarizer constructed, [TagURL tag] is
    [https://github.com/acme/widgets/tree/] followed by [tag] for every
    tag, so [https://github.com/acme/widgets/tree/v1.2.0] for [v1.2.0],
    and [ChangesURL since until] is
    [https://github.com/acme/widgets/compare/since...until]. *)
Theorem construct_acme_widgets (w : World) (path : string) (log : list Call) :
  remoteUrlOf w path = Ok "git@github.com:acme/widgets.git" ->
  exists s : ChangeSummarizer,
    NewChangeSummarizer w path log = ((Some s, None), log ++ [CallRemoteUrl path]) /\
    userName s = "acme" /\ repoName s = "widgets" /\
    (forall tag,
       TagURL s tag = ("https://github.com/acme/widgets/tree/" ++ tag)%string) /\
    TagURL s "v1.2.0" = "https://github.com/acme/widgets/tree/v1.2.0" /\
    (forall since until,
       ChangesURL s since until =
       ("https://github.com/acme/widgets/compare/" ++ since ++ "..." ++ until)%string).
Proof.
  intros H. eexists. split.
  - rewrite (NewChangeSummarizer_run w path log _ H). reflexivity.
  - repeat split.
Qed.

Lemma construct_acme_widgets_witness :
  exists s : ChangeSummarizer,
    NewChangeSummarizer (remoteOnly "git@github.com:acme/widgets.git") "." [] =
      ((Some s, None), [CallRemoteUrl "."]) /\
    userName s = "acme" /\ repoName s = "widgets" /\
    (forall tag,
       TagURL s tag = ("https://github.com/acme/widgets/tree/" ++ tag)%string) /\
    TagURL s "v1.2.0" = "https://github.com/acme/widgets/tree/v1.2.0" /\
    (forall since until,
       ChangesURL s since until =
       ("https://github.com/acme/widgets/compare/" ++ since ++ "..." ++ until)%string).
Proof.
  apply (construct_acme_widgets
           (remoteOnly "git@github.com:acme/widgets.git") "." []).
  reflexivity.
Defined.

(** Whatever the host, the parser reads the same coordinates. *)
Lemma extract_host_irrelevant (h1 h2 owner repo : string) :
  extractGithubUserAndRepo (sshRemote h1 owner repo) =
  extractGithubUserAndRepo (sshRemote h2 owner repo).
Proof. now rewrite !extract_sshRemote. Qed.

(** C9.  The host of the remote URL is discarded: from a remote
    [git@h:owner/repo.git], whatever the host [h], construction succeeds
    with the coordinates [owner] and [repo] alone, and the URLs [TagURL] and
    [ChangesURL] produce start with [https://github.com/] and are made of
    the owner, the repository and the refs only; [h] has no part in them. *)
Theorem host_is_discarded (w : World) (path : string) (log : list Call)
    (h owner repo : string) :
  segment owner = true -> segment repo = true ->
  remoteUrlOf w path = Ok (sshRemote h owner repo) ->
  exists s : ChangeSummarizer,
    NewChangeSummarizer w path log = ((Some s, None), log ++ [CallRemoteUrl path]) /\
    s = {| repoPath := path; userName := owner; repoName := repo;
           changeTypeByLabel := defaultLabelChangeTypes |} /\
    (forall tag,
       TagURL s tag =
       ("https://github.com/" ++ owner ++ "/" ++ repo ++ "/tree/" ++ tag)%string) /\
    (forall since until,
       ChangesURL s since until =
       ("https://github.com/" ++ owner ++ "/" ++ repo ++ "/compare/"
          ++ since ++ "..." ++ until)%string) /\
    (forall tag, strings.HasPrefix (TagURL s tag) "https://github.com/" = true) /\
    (forall since until,
       strings.HasPrefix (ChangesURL s since until) "https://github.com/" = true).
Proof.
  intros Ho Hr H.
  apply segment_inv in Ho as (Ho0 & Ho1 & Ho2).
  apply segment_inv in Hr as (Hr0 & Hr1 & Hr2).
  eexists. split; [|split; [reflexivity|]].
  - rewrite (NewChangeSummarizer_run w path log _ H).
    rewrite extract_segments by assumption.
    apply String.eqb_neq in Ho0, Hr0. rewrite Ho0, Hr0. reflexivity.
  - repeat split; intros; apply (HasPrefix_app "https://github.com/").
Qed.

Lemma host_is_discarded_witness :
  exists s : ChangeSummarizer,
    NewChangeSummarizer (remoteOnly (sshRemote "git.example.org:2222" "acme" "widgets"))
      "." [] = ((Some s, None), [CallRemoteUrl "."]) /\
    s = {| repoPath := "."; userName := "acme"; repoName := "widgets";
           changeTypeByLabel := defaultLabelChangeTypes |} /\
    (forall tag,
       TagURL s tag =
       ("https://github.com/" ++ "acme" ++ "/" ++ "widgets" ++ "/tree/" ++ tag)%string) /\
    (forall since until,
       ChangesURL s since until =
       ("https://github.com/" ++ "acme" ++ "/" ++ "widgets" ++ "/compare/"
          ++ since ++ "..." ++ until)%string) /\
    (forall tag, strings.HasPrefix (TagURL s tag) "https://github.com/" = true) /\
    (forall since until,
       strings.HasPrefix (ChangesURL s since until) "https://github.com/" = true).
Proof.
  apply (host_is_discarded
           (remoteOnly (sshRemote "git.example.org:2222" "acme" "widgets"))
           "." [] "git.example.org:2222" "acme" "widgets");
    reflexivity.
Defined.

(** Every remote of SSH shape has a colon. *)
Lemma sshRemote_has_colon (host owner repo : string) :
  hasByte ":" (sshRemote host owner repo) = true.
Proof.
  rewrite sshRemote_parts, !hasByte_app. cbn [hasByte Ascii.eqb].
  rewrite !orb_true_r. reflexivity.
Qed.

(** C6, as stated, fails: the remote [git@acme/widgets] has no host part,
    no colon and no [.git] at its end, so it is not of the shape
    [git@host:owner/repo.git] for any host, owner and repository, and yet
    construction succeeds on it, with owner [git@acme]. *)
Lemma lax_remote_is_accepted :
  (forall host owner repo, "git@acme/widgets" <> sshRemote host owner repo) /\
  NewChangeSummarizer (remoteOnly "git@acme/widgets") "." [] =
    ((Some {| repoPath := "."; userName := "git@acme"; repoName := "widgets";
              changeTypeByLabel := defaultLabelChangeTypes |}, None),
     [CallRemoteUrl "."]).
Proof.
  split; [|reflexivity].
  intros host owner repo E.
  pose proof (sshRemote_has_colon host owner repo) as H.
  rewrite <- E in H. discriminate H.
Qed.

(** C6, amended.  Construction fails with the parse error, and returns no
    summarizer, for every remote URL that does not start with [git@], or
    whose last colon-separated field, taken after one [.git] at the end is
    trimmed, does not split at [/] into exactly two segments, or whose
    owner or repository comes out empty; it fails with git's own error when
    the remote URL cannot be read.  Every other remote URL is accepted,
    with or without a host part, a colon or a [.git] at its end. *)
Theorem construction_failures (w : World) (path : string) (log : list Call) :
  (forall err,
     remoteUrlOf w path = Err err ->
     NewChangeSummarizer w path log = ((None, Some err), log ++ [CallRemoteUrl path])) /\
  (forall url,
     remoteUrlOf w path = Ok url ->
     let pair :=
       strings.Split
         (last (strings.Split (strings.TrimSuffix url ".git") ":") "") "/" in
     (strings.HasPrefix url "git@" = false \/
      List.length pair <> 2 \/
      fst (extractGithubUserAndRepo url) = "" \/
      snd (extractGithubUserAndRepo url) = "" ->
      NewChangeSummarizer w path log =
        ((None, Some (ErrParseRepo url)), log ++ [CallRemoteUrl path])) /\
     (strings.HasPrefix url "git@" = true ->
      List.length pair = 2 ->
      fst (extractGithubUserAndRepo url) <> "" ->
      snd (extractGithubUserAndRepo url) <> "" ->
      NewChangeSummarizer w path log =
        ((Some {| repoPath := path;
                  userName := nth 0 pair "";
                  repoName := nth 1 pair "";
                  changeTypeByLabel := defaultLabelChangeTypes |}, None),
         log ++ [CallRemoteUrl path]))).
Proof.
  split.
  - intros err H.
    unfold NewChangeSummarizer. run_exec.
    now rewrite H.
  - intros url H pair. rewrite (NewChangeSummarizer_run w path log _ H).
    assert (E : extractGithubUserAndRepo url =
                if negb (strings.HasPrefix url "git@") then ("", "")
                else match pair with
                     | [user; repo] => (user, repo)
                     | _ => ("", "")
                     end) by reflexivity.
    clearbody pair. split.
    + intros Hfail.
      assert (Hempty : fst (extractGithubUserAndRepo url) = "" \/
                       snd (extractGithubUserAndRepo url) = "").
      { destruct Hfail as [Hp | [Hlen | Hfail]]; [| |exact Hfail].
        - rewrite E, Hp. now left.
        - rewrite E. destruct (negb _); [now left|].
          destruct pair as [|a [|b [|c pair]]]; now left. }
      destruct (extractGithubUserAndRepo url) as [user repo].
      cbn [fst snd] in Hempty.
      destruct Hempty as [-> | ->]; [reflexivity|].
      now rewrite orb_true_r.
    + intros Hp Hlen Hu Hr. rewrite E in *. rewrite Hp in *. cbn [negb] in *.
      destruct pair as [|a [|b [|c pair]]]; try discriminate Hlen.
      cbn [fst snd nth] in *.
      apply String.eqb_neq in Hu, Hr. now rewrite Hu, Hr.
Qed.

Lemma construction_failures_witness :
  NewChangeSummarizer (remoteOnly "https://github.com/acme/widgets.git") "." [] =
    ((None, Some (ErrParseRepo "https://github.com/acme/widgets.git")),
     [CallRemoteUrl "."]) /\
  NewChangeSummarizer (remoteOnly "git@github.com:acme/widgets/extra.git") "." [] =
    ((None, Some (ErrParseRepo "git@github.com:acme/widgets/extra.git")),
     [CallRemoteUrl "."]) /\
  NewChangeSummarizer (remoteOnly "git@github.com:/widgets.git") "." [] =
    ((None, Some (ErrParseRepo "git@github.com:/widgets.git")),
     [CallRemoteUrl "."]) /\
  NewChangeSummarizer (remoteOnly "git@github.com:acme/widgets") "." [] =
    ((Some {| repoPath := "."; userName := "acme"; repoName := "widgets";
              changeTypeByLabel := defaultLabelChangeTypes |}, None),
     [CallRemoteUrl "."]) /\
  NewChangeSummarizer
    (sampleWorld (Err (Upstream "no remote")) [] (Ok []) (Ok [])) "." [] =
    ((None, Some (Upstream "no remote")), [CallRemoteUrl "."]).
Proof.
  refine (conj _ (conj _ (conj _ (conj _ _)))).
  - apply (proj1 (proj2 (construction_failures
        (remoteOnly "https://github.com/acme/widgets.git") "." [])
        "https://github.com/acme/widgets.git" eq_refl)).
    left. reflexivity.
  - apply (proj1 (proj2 (construction_failures
        (remoteOnly "git@github.com:acme/widgets/extra.git") "." [])
        "git@github.com:acme/widgets/extra.git" eq_refl)).
    right. left. vm_compute. discriminate.
  - apply (proj1 (proj2 (construction_failures
        (remoteOnly "git@github.com:/widgets.git") "." [])
        "git@github.com:/widgets.git" eq_refl)).
    right. right. left. reflexivity.
  - apply (proj2 (proj2 (construction_failures
        (remoteOnly "git@github.com:acme/widgets") "." [])
        "git@github.com:acme/widgets" eq_refl)).
    + reflexivity.
    + reflexivity.
    + vm_compute. discriminate.
    + vm_compute. discriminate.
  - apply (proj1 (construction_failures
        (sampleWorld (Err (Upstream "no remote")) [] (Ok []) (Ok [])) "." [])).
    reflexivity.
Defined.

(** ** The filter pipeline *)

Section Filters.

Lemma passes_forallb (filters : list issueFilter) (i : issue) :
  passes filters i = forallb (fun f => f i) filters.
Proof.
  induction filters as [|f filters IH]; [reflexivity|].
  cbn [passes forallb]. rewrite IH. now destruct (f i).
Qed.

Lemma passes_all (filters : list issueFilter) (i : issue) :
  passes filters i = true <-> (forall f, In f filters -> f i = true).
Proof. rewrite passes_forallb. apply forallb_forall. Qed.

Lemma passes_app (fs gs : list issueFilter) (i : issue) :
  passes (fs ++ gs) i = passes fs i && passes gs i.
Proof. rewrite !passes_forallb. apply forallb_app. Qed.

(** The conjunction does not depend on the order of the filters. *)
Lemma passes_Permutation (fs gs : list issueFilter) (i : issue) :
  Permutation fs gs -> passes fs i = passes gs i.
Proof.
  induction 1 as [|f fs gs _ IH|f g fs|fs gs hs _ IH1 _ IH2]; cbn [passes].
  - reflexivity.
  - now rewrite IH.
  - now destruct (f i), (g i).
  - now rewrite IH1.
Qed.

Lemma filterIssues_filter (issues : list issue) (filters : list issueFilter) :
  filterIssues issues filters = filter (passes filters) issues.
Proof.
  induction issues as [|i issues IH]; [reflexivity|].
  cbn [filterIssues filter]. now rewrite IH.
Qed.

Lemma filterIssues_In (issues : list issue) (filters : list issueFilter) (i : issue) :
  In i (filterIssues issues filters) <-> In i issues /\ passes filters i = true.
Proof. rewrite filterIssues_filter. apply filter_In. Qed.

Lemma filter_subsequence {A : Type} (p : A -> bool) (l : list A) :
  subsequence (filter p l) l.
Proof.
  induction l as [|x l IH]; cbn [filter]; [constructor|].
  destruct (p x); now constructor.
Qed.

End Filters.

(** C8.  [filterIssues] keeps an issue exactly when all the filters
    supplied accept it; its result does not change when the filters are
    permuted; the issues kept stand in the order they have in the input;
    and without filters the input is returned unchanged. *)
Theorem filterIssues_conjunction (issues : list issue) (filters : list issueFilter) :
  (forall i,
     In i (filterIssues issues filters) <->
     In i issues /\ (forall f, In f filters -> f i = true)) /\
  (forall filters',
     Permutation filters filters' ->
     filterIssues issues filters' = filterIssues issues filters) /\
  filterIssues issues filters =
    filter (fun i => forallb (fun f => f i) filters) issues /\
  subsequence (filterIssues issues filters) issues /\
  filterIssues issues [] = issues.
Proof.
  split; [|split; [|split; [|split]]].
  - intros i. rewrite filterIssues_In, passes_all. reflexivity.
  - intros filters' HP. rewrite !filterIssues_filter.
    apply filter_ext. intros i. symmetry. now apply passes_Permutation.
  - rewrite filterIssues_filter. apply filter_ext, passes_forallb.
  - rewrite filterIssues_filter. apply filter_subsequence.
  - induction issues as [|i issues IH]; [reflexivity|].
    cbn [filterIssues passes]. now rewrite IH.
Qed.

(** C3.  The bounds of the time window are not symmetric: [issuesAfter t]
    keeps an issue exactly when it was closed strictly after [t], and
    [issuesBefore t] exactly when it was closed at [t] or before; so an
    issue closed at the very instant of the since tag is left out, by
    [issuesAfter] and by every pipeline that has it, and an issue closed at
    the very instant of the until tag is kept by [issuesBefore]. *)
Theorem window_boundaries (t : Time) (i : issue) :
  (issuesAfter t i = true <-> (ClosedAt i > t)%Z) /\
  (issuesBefore t i = true <-> (ClosedAt i <= t)%Z) /\
  issuesAfter (ClosedAt i) i = false /\
  issuesBefore (ClosedAt i) i = true /\
  (forall issues before after,
     ~ In i (filterIssues issues (before ++ issuesAfter (ClosedAt i) :: after))) /\
  (forall issues labels,
     In i issues ->
     In i (filterIssues issues [issuesBefore (ClosedAt i)]) /\
     (In i (filterIssues issues
              [issuesAfter t; issuesWithLabel labels; issuesBefore (ClosedAt i)]) <->
      In i (filterIssues issues [issuesAfter t; issuesWithLabel labels]))).
Proof.
  assert (Hafter : issuesAfter (ClosedAt i) i = false)
    by (unfold issuesAfter; apply Z.ltb_irrefl).
  assert (Hbefore : issuesBefore (ClosedAt i) i = true)
    by (unfold issuesBefore; apply Z.leb_refl).
  split; [|split; [|split; [|split; [|split]]]].
  - unfold issuesAfter. rewrite Z.ltb_lt. lia.
  - unfold issuesBefore. apply Z.leb_le.
  - exact Hafter.
  - exact Hbefore.
  - intros issues before after H.
    apply filterIssues_In in H as [_ H].
    rewrite passes_app in H. cbn [passes] in H. rewrite Hafter in H.
    now rewrite andb_false_r in H.
  - intros issues labels Hin. split.
    + apply filterIssues_In. cbn [passes]. now rewrite Hbefore.
    + rewrite !filterIssues_In. cbn [passes]. rewrite Hbefore.
      now destruct (issuesAfter t i), (issuesWithLabel labels i).
Qed.

Lemma filterIssues_conjunction_witness :
  filterIssues [issue1; issue2; issue3]
    [issuesWithLabel ["bug"; "enhancement"]; issuesAfter 200%Z] =
  filterIssues [issue1; issue2; issue3]
    [issuesAfter 200%Z; issuesWithLabel ["bug"; "enhancement"]].
Proof.
  apply (proj1 (proj2 (filterIssues_conjunction [issue1; issue2; issue3]
           [issuesAfter 200%Z; issuesWithLabel ["bug"; "enhancement"]]))).
  apply perm_swap.
Defined.

Lemma window_boundaries_witness :
  In issue3 (filterIssues [issue1; issue2; issue3] [issuesBefore (ClosedAt issue3)]) /\
  (In issue3 (filterIssues [issue1; issue2; issue3]
                [issuesAfter 200%Z; issuesWithLabel ["enhancement"];
                 issuesBefore (ClosedAt issue3)]) <->
   In issue3 (filterIssues [issue1; issue2; issue3]
                [issuesAfter 200%Z; issuesWithLabel ["enhancement"]])).
Proof.
  apply (proj2 (proj2 (proj2 (proj2 (proj2 (window_boundaries 200%Z issue3)))))
           [issue1; issue2; issue3] ["enhancement"]).
  simpl. auto.
Defined.

(** ** [Changes] *)

Section ChangesFacts.

Variable w : World.
Variable s : ChangeSummarizer.
Variables sinceRef untilRef : string.
Variable log : list Call.

(** The loop over the filtered issues builds the list of the design
    document. *)
Lemma appendSummary_fold (issues : list issue) (summaries : list change.Summary.t) :
  fold_left (appendSummary s) issues summaries =
  summaries ++ map (spec_summary s) (filter (classified s) issues).
Proof.
  revert summaries.
  induction issues as [|i issues IH]; intros summaries; cbn [fold_left filter].
  - now rewrite app_nil_r.
  - rewrite IH. unfold appendSummary, classified.
    fold (spec_summary s i).
    destruct (changeTypes (changeTypeByLabel s) (Labels i)) eqn:E.
    + reflexivity.
    + cbn [List.length Nat.ltb Nat.leb map]. now rewrite <- app_assoc.
Qed.

(** [Changes] stops at a failing fetch. *)
Lemma Changes_fetch_fails (err : error) :
  closedIssuesOf w (userName s) (repoName s) = Err err ->
  Changes w s sinceRef untilRef log =
  (([], Some err), log ++ [CallFetchClosedIssues (userName s) (repoName s)]).
Proof.
  intros H. unfold Changes, ChangesWith. run_exec.
  now rewrite H.
Qed.

(** [Changes] stops at a since tag that git does not find. *)
Lemma Changes_since_fails (issues : list issue) (err : error) :
  closedIssuesOf w (userName s) (repoName s) = Ok issues ->
  tagOf w (repoPath s) sinceRef = Err err ->
  Changes w s sinceRef untilRef log =
  (([], Some err),
   log ++ [CallFetchClosedIssues (userName s) (repoName s);
           CallSearchForTag (repoPath s) sinceRef]).
Proof.
  intros H1 H2.
  unfold Changes, ChangesWith. run_exec.
  rewrite H1, H2, <- app_assoc. reflexivity.
Qed.

(** [Changes] stops at an until tag that git does not find. *)
Lemma Changes_until_fails (issues : list issue) (sinceTag : git.Tag) (err : error) :
  closedIssuesOf w (userName s) (repoName s) = Ok issues ->
  tagOf w (repoPath s) sinceRef = Ok sinceTag ->
  untilRef <> "" ->
  tagOf w (repoPath s) untilRef = Err err ->
  Changes w s sinceRef untilRef log =
  (([], Some err),
   log ++ [CallFetchClosedIssues (userName s) (repoName s);
           CallSearchForTag (repoPath s) sinceRef;
           CallSearchForTag (repoPath s) untilRef]).
Proof.
  intros H1 H2 Hne H3. apply String.eqb_neq in Hne.
  unfold Changes, ChangesWith. run_exec.
  rewrite H1, H2, Hne. cbn [negb]. rewrite H3, <- !app_assoc. reflexivity.
Qed.

(** When nothing fails [Changes] hands the fetched issues to the filter
    pipeline, whatever that is, with the lower bound and the known
    labels, and with the upper bound behind them when there is an until
    tag, and runs its loop over what the pipeline returns. *)
Lemma ChangesWith_succeeds
    (pipeline : list issue -> list issueFilter -> list issue)
    (issues : list issue) (sinceTag : git.Tag) (until : option git.Tag) :
  closedIssuesOf w (userName s) (repoName s) = Ok issues ->
  tagOf w (repoPath s) sinceRef = Ok sinceTag ->
  untilResolves w s untilRef until ->
  ChangesWith pipeline w s sinceRef untilRef log =
  ((fold_left (appendSummary s)
      (pipeline issues (spec_filters s sinceTag until)) [], None),
   log ++ changesCalls s sinceRef untilRef until).
Proof.
  intros H1 H2 H3. unfold ChangesWith. run_exec.
  rewrite H1, H2. unfold spec_filters, changesCalls.
  destruct until as [untilTag|]; cbn [untilResolves] in H3.
  - destruct H3 as [Hne H3]. apply String.eqb_neq in Hne.
    rewrite Hne. cbn [negb]. rewrite H3, <- !app_assoc. reflexivity.
  - subst untilRef. cbn [String.eqb negb]. rewrite <- !app_assoc. reflexivity.
Qed.

(** When nothing fails [Changes] returns the list of the design document
    for the filter set of the design document. *)
Lemma Changes_succeeds (issues : list issue) (sinceTag : git.Tag)
    (until : option git.Tag) :
  closedIssuesOf w (userName s) (repoName s) = Ok issues ->
  tagOf w (repoPath s) sinceRef = Ok sinceTag ->
  untilResolves w s untilRef until ->
  Changes w s sinceRef untilRef log =
  ((spec_changes s issues (spec_filters s sinceTag until), None),
   log ++ changesCalls s sinceRef untilRef until).
Proof.
  intros H1 H2 H3.
  unfold Changes, ChangesWith. run_exec.
  rewrite H1, H2. unfold spec_changes, spec_filters, changesCalls.
  destruct until as [untilTag|]; cbn [untilResolves] in H3.
  - destruct H3 as [Hne H3]. apply String.eqb_neq in Hne.
    rewrite Hne. cbn [negb]. rewrite H3, appendSummary_fold, <- !app_assoc.
    reflexivity.
  - subst untilRef. cbn [String.eqb negb].
    rewrite appendSummary_fold, <- !app_assoc. reflexivity.
Qed.

(** A summary of the design document carries the classification. *)
Lemma spec_changes_In (issues : list issue) (filters : list issueFilter)
    (sm : change.Summary.t) :
  In sm (spec_changes s issues filters) <->
  exists i, In i (filterIssues issues filters) /\ classified s i = true /\
            sm = spec_summary s i.
Proof.
  unfold spec_changes. rewrite in_map_iff. split.
  - intros (i & E & H). apply filter_In in H as [H1 H2]. now exists i.
  - intros (i & H1 & H2 & E). exists i. split; [now symmetry|].
    now apply filter_In.
Qed.

End ChangesFacts.

(** C1.  Whatever closed issues were fetched, [Changes] emits exactly one
    summary for each filtered issue whose classification is not empty, in
    the order of the issues: its text is the title, its change types are
    the classification, its timestamp is the closing time and its one
    reference is [#number] with the URL of the issue.  No summary is
    emitted for an issue whose classification is empty, though it passed
    every time and label filter. *)
Theorem Changes_one_summary_per_classified_issue
    (w : World) (s : ChangeSummarizer) (sinceRef untilRef : string)
    (log : list Call) (issues : list issue) (sinceTag : git.Tag)
    (until : option git.Tag) :
  closedIssuesOf w (userName s) (repoName s) = Ok issues ->
  tagOf w (repoPath s) sinceRef = Ok sinceTag ->
  untilResolves w s untilRef until ->
  let filtered := filterIssues issues (spec_filters s sinceTag until) in
  let summaryOf := fun i : issue =>
    {| change.Summary.Text := Title i;
       change.Summary.ChangeTypes := changeTypes (changeTypeByLabel s) (Labels i);
       change.Summary.Timestamp := ClosedAt i;
       change.Summary.References :=
         [ {| change.Reference.Text := String "#" (fmt.formatInt (Number i));
              change.Reference.URL := URL i |} ] |} in
  exists summaries,
    fst (Changes w s sinceRef untilRef log) = (summaries, None) /\
    summaries =
      map summaryOf
          (filter (fun i =>
                     negb (Nat.eqb
                       (List.length (changeTypes (changeTypeByLabel s) (Labels i))) 0))
                  filtered) /\
    (forall sm, In sm summaries -> change.Summary.ChangeTypes sm <> []) /\
    (forall i,
       changeTypes (changeTypeByLabel s) (Labels i) = [] ->
       ~ In (summaryOf i) summaries).
Proof.
  intros H1 H2 H3 filtered summaryOf.
  rewrite (Changes_succeeds w s sinceRef untilRef log issues sinceTag until H1 H2 H3).
  eexists. split; [reflexivity|].
  assert (Hne : forall sm,
             In sm (spec_changes s issues (spec_filters s sinceTag until)) ->
             change.Summary.ChangeTypes sm <> []).
  { intros sm H. apply spec_changes_In in H as (i & _ & Hc & ->).
    unfold classified in Hc. cbn [spec_summary change.Summary.ChangeTypes].
    now destruct (changeTypes (changeTypeByLabel s) (Labels i)). }
  split; [|split].
  - unfold spec_changes. fold filtered. f_equal.
    apply filter_ext. intros i. unfold classified.
    now destruct (changeTypes (changeTypeByLabel s) (Labels i)).
  - exact Hne.
  - intros i E H. apply Hne in H. now elim H.
Qed.

(** C2.  The filters [Changes] hands to the pipeline, with the fetched
    issues, are exactly [issuesAfter] at the timestamp of the since tag
    and [issuesWithLabel] at the labels of the classification table, in
    this order, and nothing else when [untilRef] is empty; [issuesBefore]
    at the timestamp of the until tag is put behind them exactly when
    [untilRef] is not empty.  This holds for every filter pipeline, so it
    tells the filters themselves and not only what comes out.  With the
    pipeline of the design document and an empty [untilRef] there is no
    upper bound: every fetched issue closed after the since tag, with a
    known label, is kept, and is summarized when it is classified. *)
Theorem Changes_filter_set
    (w : World) (s : ChangeSummarizer) (sinceRef untilRef : string)
    (log : list Call) (issues : list issue) (sinceTag : git.Tag) :
  closedIssuesOf w (userName s) (repoName s) = Ok issues ->
  tagOf w (repoPath s) sinceRef = Ok sinceTag ->
  let lower := issuesAfter (git.Timestamp sinceTag) in
  let known := issuesWithLabel (labels (changeTypeByLabel s)) in
  (forall pipeline : list issue -> list issueFilter -> list issue,
     (untilRef = "" ->
        fst (ChangesWith pipeline w s sinceRef untilRef log) =
          (fold_left (appendSummary s) (pipeline issues [lower; known]) [],
           None)) /\
     (untilRef <> "" ->
        forall untilTag,
          tagOf w (repoPath s) untilRef = Ok untilTag ->
          fst (ChangesWith pipeline w s sinceRef untilRef log) =
            (fold_left (appendSummary s)
               (pipeline issues
                  [lower; known; issuesBefore (git.Timestamp untilTag)]) [],
             None))) /\
  (untilRef = "" ->
     fst (Changes w s sinceRef untilRef log) =
       (spec_changes s issues [lower; known], None) /\
     (forall i,
        In i issues -> (ClosedAt i > git.Timestamp sinceTag)%Z -> known i = true ->
        In i (filterIssues issues [lower; known])) /\
     (forall i,
        In i issues -> (ClosedAt i > git.Timestamp sinceTag)%Z -> known i = true ->
        classified s i = true ->
        In (spec_summary s i) (fst (fst (Changes w s sinceRef untilRef log))))) /\
  (untilRef <> "" ->
     forall untilTag,
       tagOf w (repoPath s) untilRef = Ok untilTag ->
       fst (Changes w s sinceRef untilRef log) =
         (spec_changes s issues
            [lower; known; issuesBefore (git.Timestamp untilTag)], None)).
Proof.
  intros H1 H2 lower known.
  assert (Hkept : forall i,
            In i issues -> (ClosedAt i > git.Timestamp sinceTag)%Z ->
            known i = true -> In i (filterIssues issues [lower; known])).
  { intros i Hin Hlt Hk. apply filterIssues_In. split; [exact Hin|].
    cbn [passes]. rewrite Hk. unfold lower, issuesAfter.
    replace (_ <? _)%Z with true; [reflexivity|].
    symmetry. apply Z.ltb_lt. lia. }
  refine (conj _ (conj _ _)).
  - intros pipeline. split.
    + intros E.
      now rewrite (ChangesWith_succeeds w s sinceRef untilRef log pipeline
                     issues sinceTag None H1 H2 E).
    + intros Hne untilTag H3.
      now rewrite (ChangesWith_succeeds w s sinceRef untilRef log pipeline
                     issues sinceTag (Some untilTag) H1 H2 (conj Hne H3)).
  - intros E.
    rewrite (Changes_succeeds w s sinceRef untilRef log issues sinceTag
               None H1 H2 E).
    refine (conj eq_refl (conj Hkept _)).
    intros i Hin Hlt Hk Hc. cbn [fst]. apply spec_changes_In.
    exists i. split; [now apply Hkept|]. now split.
  - intros Hne untilTag H3.
    now rewrite (Changes_succeeds w s sinceRef untilRef log issues sinceTag
                   (Some untilTag) H1 H2 (conj Hne H3)).
Qed.

(** C4.  [Changes] has no partial success.  When the fetch of the closed
    issues fails, or [sinceRef] is not a known tag, or [untilRef] is not
    empty and not a known tag, it returns the error and no summaries; an
    error never comes with summaries.  Otherwise it returns the whole
    filtered and classified list without an error, and that list may be
    empty. *)
Theorem Changes_all_or_nothing
    (w : World) (s : ChangeSummarizer) (sinceRef untilRef : string)
    (log : list Call) :
  (forall err,
     closedIssuesOf w (userName s) (repoName s) = Err err ->
     fst (Changes w s sinceRef untilRef log) = ([], Some err)) /\
  (forall issues err,
     closedIssuesOf w (userName s) (repoName s) = Ok issues ->
     tagOf w (repoPath s) sinceRef = Err err ->
     fst (Changes w s sinceRef untilRef log) = ([], Some err)) /\
  (forall issues sinceTag err,
     closedIssuesOf w (userName s) (repoName s) = Ok issues ->
     tagOf w (repoPath s) sinceRef = Ok sinceTag ->
     untilRef <> "" ->
     tagOf w (repoPath s) untilRef = Err err ->
     fst (Changes w s sinceRef untilRef log) = ([], Some err)) /\
  (forall issues sinceTag until,
     closedIssuesOf w (userName s) (repoName s) = Ok issues ->
     tagOf w (repoPath s) sinceRef = Ok sinceTag ->
     untilResolves w s untilRef until ->
     fst (Changes w s sinceRef untilRef log) =
       (spec_changes s issues (spec_filters s sinceTag until), None) /\
     (filterIssues issues (spec_filters s sinceTag until) = [] ->
      fst (Changes w s sinceRef untilRef log) = ([], None))) /\
  (forall summaries err,
     fst (Changes w s sinceRef untilRef log) = (summaries, Some err) ->
     summaries = []) /\
  ((exists err, closedIssuesOf w (userName s) (repoName s) = Err err) \/
   (exists err, tagOf w (repoPath s) sinceRef = Err err) \/
   (untilRef <> "" /\ exists err, tagOf w (repoPath s) untilRef = Err err) ->
   exists err, fst (Changes w s sinceRef untilRef log) = ([], Some err)).
Proof.
  split; [|split; [|split; [|split; [|split]]]].
  - intros err H. now rewrite (Changes_fetch_fails w s sinceRef untilRef log err H).
  - intros issues err H1 H2.
    now rewrite (Changes_since_fails w s sinceRef untilRef log issues err H1 H2).
  - intros issues sinceTag err H1 H2 Hne H3.
    now rewrite (Changes_until_fails w s sinceRef untilRef log issues sinceTag
                   err H1 H2 Hne H3).
  - intros issues sinceTag until H1 H2 H3.
    rewrite (Changes_succeeds w s sinceRef untilRef log issues sinceTag until
               H1 H2 H3).
    split; [reflexivity|]. intros E. unfold spec_changes. now rewrite E.
  - intros summaries err.
    destruct (closedIssuesOf w (userName s) (repoName s)) as [issues|e1] eqn:H1.
    2:{ rewrite (Changes_fetch_fails w s sinceRef untilRef log e1 H1).
        cbn [fst]. congruence. }
    destruct (tagOf w (repoPath s) sinceRef) as [sinceTag|e2] eqn:H2.
    2:{ rewrite (Changes_since_fails w s sinceRef untilRef log issues e2 H1 H2).
        cbn [fst]. congruence. }
    destruct (String.eqb_spec untilRef "") as [E|Hne].
    { rewrite (Changes_succeeds w s sinceRef untilRef log issues sinceTag
                 None H1 H2 E).
      cbn [fst]. congruence. }
    destruct (tagOf w (repoPath s) untilRef) as [untilTag|e3] eqn:H3.
    + rewrite (Changes_succeeds w s sinceRef untilRef log issues sinceTag
                 (Some untilTag) H1 H2 (conj Hne H3)).
      cbn [fst]. congruence.
    + rewrite (Changes_until_fails w s sinceRef untilRef log issues sinceTag
                 e3 H1 H2 Hne H3).
      cbn [fst]. congruence.
  - intros Hfail.
    destruct (closedIssuesOf w (userName s) (repoName s)) as [issues|e1] eqn:H1.
    2:{ exists e1.
        now rewrite (Changes_fetch_fails w s sinceRef untilRef log e1 H1). }
    destruct (tagOf w (repoPath s) sinceRef) as [sinceTag|e2] eqn:H2.
    2:{ exists e2.
        now rewrite (Changes_since_fails w s sinceRef untilRef log issues e2 H1 H2). }
    destruct Hfail as [[e H] | [[e H] | [Hne [e H3]]]]; try discriminate H.
    exists e.
    now rewrite (Changes_until_fails w s sinceRef untilRef log issues sinceTag
                   e H1 H2 Hne H3).
Qed.

(** C10.  [Changes] fetches the closed issues before it resolves any tag:
    when the fetch fails, the fetch error is returned and the fetch is the
    only call made, whatever git would have answered for [sinceRef].  With
    an empty [untilRef] no tag but [sinceRef] is ever searched, the answer
    does not depend on what git holds for any other ref, and once the fetch
    and the since tag succeed there is no error. *)
Theorem Changes_call_order
    (w : World) (s : ChangeSummarizer) (sinceRef untilRef : string)
    (log : list Call) :
  let fetch := CallFetchClosedIssues (userName s) (repoName s) in
  let searchSince := CallSearchForTag (repoPath s) sinceRef in
  (forall err,
     closedIssuesOf w (userName s) (repoName s) = Err err ->
     Changes w s sinceRef untilRef log = (([], Some err), log ++ [fetch])) /\
  (untilRef = "" ->
     (snd (Changes w s sinceRef untilRef log) = log ++ [fetch] \/
      snd (Changes w s sinceRef untilRef log) = log ++ [fetch; searchSince]) /\
     (forall issues sinceTag,
        closedIssuesOf w (userName s) (repoName s) = Ok issues ->
        tagOf w (repoPath s) sinceRef = Ok sinceTag ->
        snd (fst (Changes w s sinceRef untilRef log)) = None) /\
     (forall w' : World,
        closedIssuesOf w' (userName s) (repoName s) =
          closedIssuesOf w (userName s) (repoName s) ->
        tagOf w' (repoPath s) sinceRef = tagOf w (repoPath s) sinceRef ->
        Changes w' s sinceRef untilRef log = Changes w s sinceRef untilRef log)).
Proof.
  intros fetch searchSince. split.
  - intros err H. exact (Changes_fetch_fails w s sinceRef untilRef log err H).
  - intros E.
    assert (Hrun : forall v : World,
      Changes v s sinceRef untilRef log =
      match closedIssuesOf v (userName s) (repoName s) with
      | Err err => (([], Some err), log ++ [fetch])
      | Ok issues =>
          match tagOf v (repoPath s) sinceRef with
          | Err err => (([], Some err), log ++ [fetch; searchSince])
          | Ok sinceTag =>
              ((spec_changes s issues (spec_filters s sinceTag None), None),
               log ++ [fetch; searchSince])
          end
      end).
    { intros v.
      destruct (closedIssuesOf v (userName s) (repoName s)) as [issues|e1] eqn:H1.
      2:{ exact (Changes_fetch_fails v s sinceRef untilRef log e1 H1). }
      destruct (tagOf v (repoPath s) sinceRef) as [sinceTag|e2] eqn:H2.
      - exact (Changes_succeeds v s sinceRef untilRef log issues sinceTag
                 None H1 H2 E).
      - exact (Changes_since_fails v s sinceRef untilRef log issues e2 H1 H2). }
    split; [|split].
    + rewrite (Hrun w).
      destruct (closedIssuesOf w (userName s) (repoName s)); [|now left].
      destruct (tagOf w (repoPath s) sinceRef); now right.
    + intros issues sinceTag H1 H2. now rewrite (Hrun w), H1, H2.
    + intros w' H1 H2. now rewrite (Hrun w), (Hrun w'), H1, H2.
Qed.

(** ** [LastRelease] *)

(** The scan passes the drafts and stops at the first release that is not
    a draft. *)
Lemma latestNonDraftRelease_first (drafts : list ghRelease) (r : ghRelease)
    (rest : list ghRelease) :
  forallb IsDraft drafts = true ->
  IsDraft r = false ->
  latestNonDraftRelease (drafts ++ r :: rest) = Some r.
Proof.
  intros Hd Hr. induction drafts as [|d drafts IH]; cbn [app latestNonDraftRelease].
  - now rewrite Hr.
  - cbn [forallb] in Hd. apply andb_true_iff in Hd as [Hd1 Hd2].
    rewrite Hd1. now apply IH.
Qed.

Lemma latestNonDraftRelease_none (releases : list ghRelease) :
  latestNonDraftRelease releases = None <-> forallb IsDraft releases = true.
Proof.
  induction releases as [|r releases IH]; cbn [latestNonDraftRelease forallb].
  - tauto.
  - destruct (IsDraft r); cbn [andb]; [exact IH | split; discriminate].
Qed.

(** C7.  [LastRelease] returns the version and the date of the first
    release of the list that is not a draft, also when drafts stand before
    it; it fails with the error of a release not found when every release is
    a draft or there is none; and when the fetch of the releases fails it
    fails with an error that wraps the error of the fetch. *)
Theorem LastRelease_first_non_draft (w : World) (s : ChangeSummarizer)
    (log : list Call) :
  let calls := log ++ [CallFetchAllReleases (userName s) (repoName s)] in
  (forall drafts r rest,
     releasesOf w (userName s) (repoName s) = Ok (drafts ++ r :: rest) ->
     forallb IsDraft drafts = true ->
     IsDraft r = false ->
     LastRelease w s log =
       ((Some {| release.Version := Tag r; release.Date := Date r |}, None),
        calls)) /\
  (forall releases,
     releasesOf w (userName s) (repoName s) = Ok releases ->
     forallb IsDraft releases = true ->
     LastRelease w s log = ((None, Some ErrNoLatestRelease), calls)) /\
  (releasesOf w (userName s) (repoName s) = Ok [] ->
   LastRelease w s log = ((None, Some ErrNoLatestRelease), calls)) /\
  (forall err,
     releasesOf w (userName s) (repoName s) = Err err ->
     LastRelease w s log = ((None, Some (ErrFetchAllReleases err)), calls)).
Proof.
  intros calls.
  unfold LastRelease. run_exec.
  split; [|split; [|split]].
  - intros drafts r rest H Hd Hr.
    now rewrite H, latestNonDraftRelease_first.
  - intros releases H Hd. apply latestNonDraftRelease_none in Hd.
    now rewrite H, Hd.
  - intros H. now rewrite H.
  - intros err H. now rewrite H.
Qed.

(** ** The scenario of the design document *)

Example Changes_scenario :
  Changes acmeWorld acmeWidgets "v1.0.0" "v1.1.0" [] =
  (([ {| change.Summary.Text := "Add export";
         change.Summary.ChangeTypes := ["added"];
         change.Summary.Timestamp := 400%Z;
         change.Summary.References :=
           [ {| change.Reference.Text := "#3";
                change.Reference.URL := "https://github.com/acme/widgets/pull/3" |} ] |} ],
    None),
   [ CallFetchClosedIssues "acme" "widgets";
     CallSearchForTag "." "v1.0.0";
     CallSearchForTag "." "v1.1.0" ]).
Proof. reflexivity. Qed.

Example LastRelease_scenario :
  LastRelease acmeWorld acmeWidgets [] =
  ((Some {| release.Version := "v1.1.0"; release.Date := 400%Z |}, None),
   [CallFetchAllReleases "acme" "widgets"]).
Proof. reflexivity. Qed.

Lemma Changes_one_summary_per_classified_issue_witness :
  exists summaries,
    fst (Changes acmeWorld acmeWidgets "v1.0.0" "v1.1.0" []) = (summaries, None) /\
    List.length summaries = 1 /\
    (forall sm, In sm summaries -> change.Summary.ChangeTypes sm <> []).
Proof.
  destruct (Changes_one_summary_per_classified_issue
              acmeWorld acmeWidgets "v1.0.0" "v1.1.0" []
              [issue1; issue2; issue3]
              {| git.Name := "v1.0.0"; git.Timestamp := 200%Z |}
              (Some {| git.Name := "v1.1.0"; git.Timestamp := 400%Z |}))
    as (summaries & H1 & H2 & H3 & _).
  - reflexivity.
  - reflexivity.
  - split; [discriminate | reflexivity].
  - exists summaries. split; [exact H1|]. split; [|exact H3].
    rewrite H2. reflexivity.
Defined.

Lemma Changes_filter_set_witness :
  (forall pipeline : list issue -> list issueFilter -> list issue,
     fst (ChangesWith pipeline acmeWorld acmeWidgets "v1.0.0" "" []) =
       (fold_left (appendSummary acmeWidgets)
          (pipeline [issue1; issue2; issue3]
             [issuesAfter 200%Z;
              issuesWithLabel ["bug"; "enhancement"; "breaking"]]) [],
        None)) /\
  (forall pipeline : list issue -> list issueFilter -> list issue,
     fst (ChangesWith pipeline acmeWorld acmeWidgets "v1.0.0" "v1.1.0" []) =
       (fold_left (appendSummary acmeWidgets)
          (pipeline [issue1; issue2; issue3]
             [issuesAfter 200%Z;
              issuesWithLabel ["bug"; "enhancement"; "breaking"];
              issuesBefore 400%Z]) [],
        None)) /\
  fst (Changes acmeWorld acmeWidgets "v1.0.0" "" []) =
    (spec_changes acmeWidgets [issue1; issue2; issue3]
       [issuesAfter 200%Z; issuesWithLabel ["bug"; "enhancement"; "breaking"]],
     None) /\
  In (spec_summary acmeWidgets issue3)
     (fst (fst (Changes acmeWorld acmeWidgets "v1.0.0" "" []))) /\
  fst (Changes acmeWorld acmeWidgets "v1.0.0" "v1.1.0" []) =
    (spec_changes acmeWidgets [issue1; issue2; issue3]
       [issuesAfter 200%Z; issuesWithLabel ["bug"; "enhancement"; "breaking"];
        issuesBefore 400%Z],
     None).
Proof.
  pose proof (Changes_filter_set acmeWorld acmeWidgets "v1.0.0" "" []
                [issue1; issue2; issue3]
                {| git.Name := "v1.0.0"; git.Timestamp := 200%Z |}
                eq_refl eq_refl) as (Hp & He & _).
  pose proof (Changes_filter_set acmeWorld acmeWidgets "v1.0.0" "v1.1.0" []
                [issue1; issue2; issue3]
                {| git.Name := "v1.0.0"; git.Timestamp := 200%Z |}
                eq_refl eq_refl) as (Hq & _ & Hu).
  destruct (He eq_refl) as (He1 & _ & He3).
  refine (conj _ (conj _ (conj He1 (conj _ _)))).
  - intros pipeline. exact (proj1 (Hp pipeline) eq_refl).
  - intros pipeline.
    exact (proj2 (Hq pipeline) ltac:(discriminate)
             {| git.Name := "v1.1.0"; git.Timestamp := 400%Z |} eq_refl).
  - apply (He3 issue3).
    + simpl. auto.
    + reflexivity.
    + reflexivity.
    + reflexivity.
  - exact (Hu ltac:(discriminate)
             {| git.Name := "v1.1.0"; git.Timestamp := 400%Z |} eq_refl).
Defined.

Lemma Changes_all_or_nothing_witness :
  fst (Changes offlineWorld acmeWidgets "v1.0.0" "v1.1.0" []) =
    ([], Some (Upstream "tracker unreachable")) /\
  fst (Changes acmeWorld acmeWidgets "v0.9.0" "v1.1.0" []) =
    ([], Some (Upstream "tag not found")) /\
  fst (Changes acmeWorld acmeWidgets "v1.0.0" "v2.0.0" []) =
    ([], Some (Upstream "tag not found")) /\
  fst (Changes acmeWorld acmeWidgets "v1.1.0" "" []) = ([], None).
Proof.
  refine (conj _ (conj _ (conj _ _))).
  - apply (proj1 (Changes_all_or_nothing
                    offlineWorld acmeWidgets "v1.0.0" "v1.1.0" [])).
    reflexivity.
  - apply (proj1 (proj2 (Changes_all_or_nothing
                    acmeWorld acmeWidgets "v0.9.0" "v1.1.0" []))
             [issue1; issue2; issue3]);
      reflexivity.
  - apply (proj1 (proj2 (proj2 (Changes_all_or_nothing
                    acmeWorld acmeWidgets "v1.0.0" "v2.0.0" [])))
             [issue1; issue2; issue3]
             {| git.Name := "v1.0.0"; git.Timestamp := 200%Z |});
      [reflexivity | reflexivity | discriminate | reflexivity].
  - apply (proj1 (proj2 (proj2 (proj2 (Changes_all_or_nothing
                    acmeWorld acmeWidgets "v1.1.0" "" []))))
             [issue1; issue2; issue3]
             {| git.Name := "v1.1.0"; git.Timestamp := 400%Z |}
             None);
      reflexivity.
Defined.

Lemma Changes_call_order_witness :
  Changes offlineWorld acmeWidgets "v0.9.0" "v1.1.0" [] =
    (([], Some (Upstream "tracker unreachable")),
     [CallFetchClosedIssues "acme" "widgets"]) /\
  snd (fst (Changes acmeWorld acmeWidgets "v1.0.0" "" [])) = None.
Proof.
  split.
  - apply (proj1 (Changes_call_order
                    offlineWorld acmeWidgets "v0.9.0" "v1.1.0" [])).
    reflexivity.
  - apply (proj1 (proj2 (proj2 (Changes_call_order
                    acmeWorld acmeWidgets "v1.0.0" "" []) eq_refl))
             [issue1; issue2; issue3]
             {| git.Name := "v1.0.0"; git.Timestamp := 200%Z |});
      reflexivity.
Defined.

Lemma LastRelease_first_non_draft_witness :
  LastRelease acmeWorld acmeWidgets [] =
    ((Some {| release.Version := "v1.1.0"; release.Date := 400%Z |}, None),
     [CallFetchAllReleases "acme" "widgets"]) /\
  LastRelease offlineWorld acmeWidgets [] =
    ((None, Some (ErrFetchAllReleases (Upstream "tracker unreachable"))),
     [CallFetchAllReleases "acme" "widgets"]).
Proof.
  split.
  - apply (proj1 (LastRelease_first_non_draft acmeWorld acmeWidgets [])
             [ {| Tag := "v1.2.0"; Date := 500%Z; IsDraft := true |} ]
             {| Tag := "v1.1.0"; Date := 400%Z; IsDraft := false |}
             [ {| Tag := "v1.0.0"; Date := 200%Z; IsDraft := false |} ]);
      reflexivity.
  - apply (proj2 (proj2 (proj2
             (LastRelease_first_non_draft offlineWorld acmeWidgets [])))).
    reflexivity.
Defined.

(** ** More on the repository coordinates *)

Section CoordinateFacts.

(** A field cut at [d] has no [d] in it. *)
Lemma Split_fields_without_sep (d : ascii) (s : string) :
  Forall (fun f => hasByte d f = false) (strings.Split s (String d "")).
Proof.
  induction s as [|c s IH].
  - rewrite Split_empty. now constructor.
  - rewrite Split_step. destruct (Ascii.eqb c d) eqn:E.
    + now constructor.
    + destruct (strings.Split s (String d "")) as [|f fs].
      * constructor; [|constructor]. cbn [hasByte]. now rewrite E.
      * inversion IH as [|? ? Hf Hfs]; subst.
        constructor; [|exact Hfs]. cbn [hasByte]. now rewrite E, Hf.
Qed.

(** Cutting at [d] brings no byte [e] into a field. *)
Lemma Split_fields_keep_absent (d e : ascii) (s : string) :
  hasByte e s = false ->
  Forall (fun f => hasByte e f = false) (strings.Split s (String d "")).
Proof.
  induction s as [|c s IH]; intros H.
  - rewrite Split_empty. now constructor.
  - cbn [hasByte] in H. apply orb_false_iff in H as [Hc Hs].
    specialize (IH Hs). rewrite Split_step. destruct (Ascii.eqb c d).
    + now constructor.
    + destruct (strings.Split s (String d "")) as [|f fs].
      * constructor; [|constructor]. cbn [hasByte]. now rewrite Hc.
      * inversion IH as [|? ? Hf Hfs]; subst.
        constructor; [|exact Hfs]. cbn [hasByte]. now rewrite Hc, Hf.
Qed.

Lemma Forall_last {A : Type} (P : A -> Prop) (l : list A) (d : A) :
  P d -> Forall P l -> P (last l d).
Proof.
  intros Hd H. induction H as [|x l Hx Hl IH]; [exact Hd|].
  cbn [last]. destruct l; [exact Hx | exact IH].
Qed.

(** Cancelling the first field of a path. *)
Lemma first_segment_inj (d : ascii) (a b x y : string) :
  hasByte d a = false -> hasByte d b = false ->
  (a ++ String d x = b ++ String d y)%string -> a = b /\ x = y.
Proof.
  revert b. induction a as [|c a IH]; intros [|c' b] Ha Hb E; cbn [append] in E.
  - now inversion E.
  - inversion E; subst. cbn [hasByte] in Hb.
    now rewrite Ascii.eqb_refl in Hb.
  - inversion E; subst. cbn [hasByte] in Ha.
    now rewrite Ascii.eqb_refl in Ha.
  - inversion E; subst. cbn [hasByte] in Ha, Hb.
    apply orb_false_iff in Ha as [_ Ha]. apply orb_false_iff in Hb as [_ Hb].
    destruct (IH b Ha Hb H1) as [-> ->]. now split.
Qed.

Lemma app_inv_head_string (p x y : string) :
  (p ++ x = p ++ y)%string -> x = y.
Proof.
  induction p as [|c p IH]; cbn [append]; intros E; [exact E|].
  inversion E. now apply IH.
Qed.

(** A string that does not end with [.git] keeps its [git@] prefix, or
    the lack of it, when [.git] is put behind it. *)
Lemma HasPrefix_git_suffix (url : string) :
  strings.HasPrefix (url ++ ".git") "git@" = strings.HasPrefix url "git@".
Proof.
  unfold strings.HasPrefix.
  destruct url as [|c1 [|c2 [|c3 [|c4 url]]]]; cbn [append String.prefix];
    repeat match goal with
           | |- context [ascii_dec ?a ?b] =>
               destruct (ascii_dec a b); try discriminate
           end;
    try reflexivity.
  now destruct url.
Qed.

End CoordinateFacts.

(** What the parser returns was cut at [:] and at [/]. *)
Lemma extract_without_separators (url : string) :
  let (user, repo) := extractGithubUserAndRepo url in
  hasByte "/" user = false /\ hasByte ":" user = false /\
  hasByte "/" repo = false /\ hasByte ":" repo = false.
Proof.
  unfold extractGithubUserAndRepo.
  destruct (negb (strings.HasPrefix url "git@")); [now repeat split|].
  set (field := last (strings.Split (strings.TrimSuffix url ".git") ":") "").
  assert (Hcolon : hasByte ":" field = false).
  { apply (Forall_last (fun f => hasByte ":" f = false)); [reflexivity|].
    apply Split_fields_without_sep. }
  pose proof (Split_fields_without_sep "/" field) as Hslash.
  pose proof (Split_fields_keep_absent "/" ":" field Hcolon) as Hkeep.
  destruct (strings.Split field "/") as [|user [|repo [|x pair]]];
    try (now repeat split).
  inversion Hslash as [|? ? Hs1 Hs]; subst. inversion Hs as [|? ? Hs2 _]; subst.
  inversion Hkeep as [|? ? Hk1 Hk]; subst. inversion Hk as [|? ? Hk2 _]; subst.
  now repeat split.
Qed.

(** X1.  The coordinates the parser returns hold no separator: neither
    the owner nor the repository has a [/] or a [:] in it, whatever the
    remote URL was. *)
Theorem extract_coordinates_clean (url : string) :
  hasByte "/" (fst (extractGithubUserAndRepo url)) = false /\
  hasByte ":" (fst (extractGithubUserAndRepo url)) = false /\
  hasByte "/" (snd (extractGithubUserAndRepo url)) = false /\
  hasByte ":" (snd (extractGithubUserAndRepo url)) = false.
Proof.
  pose proof (extract_without_separators url) as H.
  now destruct (extractGithubUserAndRepo url).
Qed.

(** X3.  The [.git] at the end of a remote URL is optional: a URL that
    does not end with [.git] is parsed as the same URL with [.git] put
    behind it. *)
Theorem extract_git_suffix_optional (url : string) :
  strings.HasSuffix url ".git" = false ->
  extractGithubUserAndRepo (url ++ ".git") = extractGithubUserAndRepo url.
Proof.
  intros H. unfold extractGithubUserAndRepo.
  rewrite HasPrefix_git_suffix, TrimSuffix_app.
  unfold strings.TrimSuffix. now rewrite H.
Qed.

Lemma extract_git_suffix_optional_witness :
  extractGithubUserAndRepo ("git@github.com:wagoodman/count-goober" ++ ".git") =
  extractGithubUserAndRepo "git@github.com:wagoodman/count-goober".
Proof.
  apply (extract_git_suffix_optional "git@github.com:wagoodman/count-goober").
  reflexivity.
Defined.

(** X4.  Round trip: the coordinates read from any remote URL, written
    back as a remote of SSH shape with any host, are read again as the
    same coordinates. *)
Theorem extract_round_trip (url host : string) :
  extractGithubUserAndRepo
    (sshRemote host (fst (extractGithubUserAndRepo url))
                    (snd (extractGithubUserAndRepo url))) =
  extractGithubUserAndRepo url.
Proof.
  pose proof (extract_without_separators url) as H.
  destruct (extractGithubUserAndRepo url) as [user repo].
  destruct H as (H1 & H2 & H3 & H4). cbn [fst snd].
  now apply extract_segments.
Qed.

(** The parser gives up on a URL without the [git@] prefix. *)
Lemma extract_needs_prefix (url : string) :
  strings.HasPrefix url "git@" = false ->
  extractGithubUserAndRepo url = ("", "").
Proof. intros H. unfold extractGithubUserAndRepo. now rewrite H. Qed.

(** X2.  Construction asks git for the remote URL, once, and does nothing
    else; it returns a summarizer or an error, never both and never
    neither.  A summarizer that is returned is bound to the path given,
    carries the default table, and has an owner and a repository that are
    not empty and free of [/] and [:], read from a remote URL that starts
    with [git@]. *)
Theorem NewChangeSummarizer_invariant (w : World) (path : string) (log : list Call) :
  snd (NewChangeSummarizer w path log) = log ++ [CallRemoteUrl path] /\
  ((exists s, fst (NewChangeSummarizer w path log) = (Some s, None)) \/
   (exists err, fst (NewChangeSummarizer w path log) = (None, Some err))) /\
  (forall s o,
     fst (NewChangeSummarizer w path log) = (Some s, o) ->
     repoPath s = path /\
     changeTypeByLabel s = defaultLabelChangeTypes /\
     userName s <> "" /\ repoName s <> "" /\
     hasByte "/" (userName s) = false /\ hasByte ":" (userName s) = false /\
     hasByte "/" (repoName s) = false /\ hasByte ":" (repoName s) = false /\
     exists url,
       remoteUrlOf w path = Ok url /\
       strings.HasPrefix url "git@" = true /\
       extractGithubUserAndRepo url = (userName s, repoName s)).
Proof.
  destruct (remoteUrlOf w path) as [url|err] eqn:H.
  - rewrite (NewChangeSummarizer_run w path log url H).
    pose proof (extract_without_separators url) as Hclean.
    pose proof (extract_needs_prefix url) as Hprefix.
    destruct (extractGithubUserAndRepo url) as [user repo] eqn:Ex.
    destruct (String.eqb user "" || String.eqb repo "") eqn:E; cbn [fst snd].
    + split; [reflexivity|]. split; [right; eauto|]. discriminate.
    + split; [reflexivity|]. split; [left; eauto|].
      intros s o Hs. inversion Hs; subst s o. cbn.
      apply orb_false_iff in E as [E1 E2].
      apply String.eqb_neq in E1, E2.
      destruct Hclean as (H1 & H2 & H3 & H4).
      repeat (split; [assumption || reflexivity|]).
      exists url. split; [reflexivity|]. split; [|exact Ex].
      destruct (strings.HasPrefix url "git@"); [reflexivity|].
      specialize (Hprefix eq_refl). inversion Hprefix. now subst.
  - unfold NewChangeSummarizer. run_exec. rewrite H. cbn [fst snd].
    split; [reflexivity|]. split; [right; eauto|]. discriminate.
Qed.

Lemma NewChangeSummarizer_invariant_witness :
  repoPath acmeWidgets = "." /\
  changeTypeByLabel acmeWidgets = defaultLabelChangeTypes /\
  userName acmeWidgets <> "" /\ repoName acmeWidgets <> "" /\
  hasByte "/" (userName acmeWidgets) = false /\
  hasByte ":" (userName acmeWidgets) = false /\
  hasByte "/" (repoName acmeWidgets) = false /\
  hasByte ":" (repoName acmeWidgets) = false /\
  exists url,
    remoteUrlOf acmeWorld "." = Ok url /\
    strings.HasPrefix url "git@" = true /\
    extractGithubUserAndRepo url = (userName acmeWidgets, repoName acmeWidgets).
Proof.
  apply (proj2 (proj2 (NewChangeSummarizer_invariant acmeWorld "." []))
           acmeWidgets None).
  reflexivity.
Defined.

(** X5.  When the coordinates of two summarizers have no [/], as those
    of constructed summarizers, equal tag URLs mean the same owner, the
    same repository and the same tag; equal compare URLs mean the same
    owner and repository and the same range text; and a tag URL is never
    a compare URL. *)
Theorem URLs_determine_coordinates (s1 s2 : ChangeSummarizer)
    (tag1 tag2 since1 until1 since2 until2 : string) :
  hasByte "/" (userName s1) = false -> hasByte "/" (repoName s1) = false ->
  hasByte "/" (userName s2) = false -> hasByte "/" (repoName s2) = false ->
  (TagURL s1 tag1 = TagURL s2 tag2 ->
     userName s1 = userName s2 /\ repoName s1 = repoName s2 /\ tag1 = tag2) /\
  (ChangesURL s1 since1 until1 = ChangesURL s2 since2 until2 ->
     userName s1 = userName s2 /\ repoName s1 = repoName s2 /\
     (since1 ++ "..." ++ until1 = since2 ++ "..." ++ until2)%string) /\
  TagURL s1 tag1 <> ChangesURL s2 since2 until2.
Proof.
  intros Hu1 Hr1 Hu2 Hr2. unfold TagURL, ChangesURL.
  refine (conj _ (conj _ _)); intros E;
    apply app_inv_head_string in E;
    apply (first_segment_inj "/" _ _ _ _ Hu1 Hu2) in E as [Eu E];
    apply (first_segment_inj "/" _ _ _ _ Hr1 Hr2) in E as [Er E].
  - repeat split; try assumption.
    now apply (app_inv_head_string "tree/").
  - repeat split; try assumption.
    now apply (app_inv_head_string "compare/").
  - discriminate E.
Qed.

Lemma URLs_determine_coordinates_witness :
  TagURL acmeWidgets "v1.0.0" <> ChangesURL acmeWidgets "v1.0.0" "v1.1.0".
Proof.
  apply (proj2 (proj2 (URLs_determine_coordinates acmeWidgets acmeWidgets
           "v1.0.0" "v1.0.0" "v1.0.0" "v1.1.0" "v1.0.0" "v1.1.0"
           eq_refl eq_refl eq_refl eq_refl))).
Defined.

(** ** More on the releases *)

(** X6.  [Release] and [LastRelease] each ask the tracker once and return
    a release or an error, never both and never neither.  [Release]
    hands the error of the tracker over as it is and returns the release
    found also when it is a draft; an error of [LastRelease] is never the
    error of the tracker itself. *)
Theorem release_lookups (w : World) (s : ChangeSummarizer) (ref : string)
    (log : list Call) :
  snd (Release w s ref log) =
    log ++ [CallFetchRelease (userName s) (repoName s) ref] /\
  snd (LastRelease w s log) =
    log ++ [CallFetchAllReleases (userName s) (repoName s)] /\
  fst (Release w s ref log) =
    match releaseOf w (userName s) (repoName s) ref with
    | Ok r => (Some {| release.Version := Tag r; release.Date := Date r |}, None)
    | Err err => (None, Some err)
    end /\
  ((exists rel, fst (LastRelease w s log) = (Some rel, None)) \/
   (exists err, fst (LastRelease w s log) = (None, Some (ErrFetchAllReleases err))) \/
   fst (LastRelease w s log) = (None, Some ErrNoLatestRelease)).
Proof.
  unfold Release, LastRelease. run_exec.
  refine (conj _ (conj _ (conj _ _))).
  - now destruct (releaseOf w (userName s) (repoName s) ref).
  - destruct (releasesOf w (userName s) (repoName s)) as [releases|]; [|reflexivity].
    now destruct (latestNonDraftRelease releases).
  - now destruct (releaseOf w (userName s) (repoName s) ref).
  - destruct (releasesOf w (userName s) (repoName s)) as [releases|err].
    + destruct (latestNonDraftRelease releases); cbn [fst]; eauto.
    + right. left. now exists err.
Qed.

(** ** More on [Changes] *)

(** X7.  [Changes] calls its collaborators in a fixed order: the fetch of
    the closed issues, then the search of the since tag, then the search
    of the until tag; it stops at the first failure and makes no other
    call.  So there are between one and three calls, the until tag is
    searched only when [untilRef] is not empty and the since tag was
    found, and without an error every call the range needs was made. *)
Theorem Changes_protocol (w : World) (s : ChangeSummarizer)
    (sinceRef untilRef : string) (log : list Call) :
  exists n,
    1 <= n <= 3 /\
    snd (Changes w s sinceRef untilRef log) =
      log ++ firstn n [ CallFetchClosedIssues (userName s) (repoName s);
                        CallSearchForTag (repoPath s) sinceRef;
                        CallSearchForTag (repoPath s) untilRef ] /\
    (n = 3 ->
       untilRef <> "" /\ exists sinceTag, tagOf w (repoPath s) sinceRef = Ok sinceTag) /\
    (snd (fst (Changes w s sinceRef untilRef log)) = None ->
       n = if String.eqb untilRef "" then 2 else 3).
Proof.
  destruct (closedIssuesOf w (userName s) (repoName s)) as [issues|e1] eqn:H1.
  2:{ exists 1. rewrite (Changes_fetch_fails w s sinceRef untilRef log e1 H1).
      cbn [fst snd firstn]. repeat split; try lia; discriminate. }
  destruct (tagOf w (repoPath s) sinceRef) as [sinceTag|e2] eqn:H2.
  2:{ exists 2. rewrite (Changes_since_fails w s sinceRef untilRef log issues e2 H1 H2).
      cbn [fst snd firstn]. repeat split; try lia; discriminate. }
  destruct (String.eqb_spec untilRef "") as [E|Hne].
  { exists 2. rewrite (Changes_succeeds w s sinceRef untilRef log issues sinceTag
                         None H1 H2 E).
    cbn [fst snd firstn]. repeat split; try lia; discriminate. }
  exists 3. split; [lia|].
  destruct (tagOf w (repoPath s) untilRef) as [untilTag|e3] eqn:H3.
  - rewrite (Changes_succeeds w s sinceRef untilRef log issues sinceTag
               (Some untilTag) H1 H2 (conj Hne H3)).
    cbn [fst snd firstn]. repeat split; eauto.
  - rewrite (Changes_until_fails w s sinceRef untilRef log issues sinceTag
               e3 H1 H2 Hne H3).
    cbn [fst snd firstn]. repeat split; eauto.
Qed.

(** The decimal form of an integer tells the integer. *)
Lemma formatInt_inj (a b : Z) : fmt.formatInt a = fmt.formatInt b -> a = b.
Proof.
  unfold fmt.formatInt. intros E.
  assert (Hnorm : forall z, Z.to_int z = Decimal.norm (Z.to_int z)).
  { intros z. rewrite <- DecimalZ.to_of. now rewrite DecimalZ.of_to. }
  assert (Hnil : forall z,
            Z.to_int z <> Decimal.Pos Decimal.Nil /\
            Z.to_int z <> Decimal.Neg Decimal.Nil).
  { intros z. rewrite (Hnorm z).
    destruct (Z.to_int z) as [d|d]; cbn [Decimal.norm].
    - split; [|discriminate]. intros H. inversion H as [H0].
      unfold Decimal.unorm in H0.
      destruct (Decimal.nzhead d); discriminate H0.
    - destruct (Decimal.nzhead d); split; discriminate. }
  apply DecimalZ.to_int_inj.
  destruct (Hnil a) as [Ha1 Ha2]. destruct (Hnil b) as [Hb1 Hb2].
  pose proof (NilZero.isi _ Ha1 Ha2) as Ia.
  pose proof (NilZero.isi _ Hb1 Hb2) as Ib.
  rewrite E in Ia. rewrite Ia in Ib. now inversion Ib.
Qed.

(** X8.  A summary tells which issue it was made from: when the loop of
    [Changes] appends the same thing for a classified issue and for
    another issue, the two issues have the same number, title, URL and
    closing time. *)
Theorem summary_identifies_issue (s : ChangeSummarizer)
    (summaries : list change.Summary.t) (i j : issue) :
  classified s i = true ->
  appendSummary s summaries i = appendSummary s summaries j ->
  Number i = Number j /\ Title i = Title j /\ URL i = URL j /\
  ClosedAt i = ClosedAt j.
Proof.
  unfold classified, appendSummary. intros Hc E.
  destruct (changeTypes (changeTypeByLabel s) (Labels i)) as [|ct cts];
    [discriminate Hc|].
  destruct (changeTypes (changeTypeByLabel s) (Labels j)) as [|ct' cts'];
    cbn [List.length Nat.ltb Nat.leb] in E.
  - rewrite <- (app_nil_r summaries) in E at 2.
    apply app_inv_head in E. discriminate E.
  - apply app_inv_head in E. inversion E as [[Ht Hct Hcts Hc' Hn Hu]].
    apply formatInt_inj in Hn. now repeat split.
Qed.

Lemma summary_identifies_issue_witness :
  issue3 <> issue3relabelled /\
  classified acmeWidgets issue3 = true /\
  appendSummary acmeWidgets [] issue3 =
    appendSummary acmeWidgets [] issue3relabelled /\
  Number issue3 = Number issue3relabelled /\
  Title issue3 = Title issue3relabelled /\
  URL issue3 = URL issue3relabelled /\
  ClosedAt issue3 = ClosedAt issue3relabelled.
Proof.
  refine (conj _ (conj eq_refl (conj eq_refl _))).
  - discriminate.
  - exact (summary_identifies_issue acmeWidgets [] issue3 issue3relabelled
             eq_refl eq_refl).
Defined.

(** ** [parseConfigValues] *)

Section ParseConfigValues.

Variable G : Type.
Variable e : config.Env G.

(** The parsers of the fields leave the plain fields alone. *)
Lemma parseFields_plainFields (cfg : config.Application G) :
  plainFields (fst (config.parseFields e cfg)) = plainFields cfg.
Proof.
  unfold config.parseFields.
  destruct (config.parseField (config.loggingParser e) (config.Log cfg))
    as [l [err|]]; [reflexivity|].
  destruct (config.parseField (config.cliParser e) _) as [o [err|]];
    [reflexivity|].
  destruct (config.parseField (config.githubParser e) _) as [g [err|]];
    reflexivity.
Qed.

(** Without parsers of fields the loop changes nothing and does not
    fail. *)
Lemma parseFields_none (cfg : config.Application G) :
  noFieldParsers e -> config.parseFields e cfg = (cfg, None).
Proof.
  intros (H1 & H2 & H3). unfold config.parseFields.
  rewrite H1, H2, H3. now destruct cfg.
Qed.

(** The level that follows from the flags, or the step that reads the
    level configured. *)
Lemma parseConfigValues_cases (cfg : config.Application G) :
  speculateWithUntil cfg = false ->
  let v := config.CliOnlyOptions.Verbosity (config.CliOptions cfg) in
  (config.Quiet cfg = true ->
     config.parseConfigValues e cfg =
     config.parseFields e
       (config.withLog cfg
          (config.withLevelOpt (config.Log cfg) (config.DisabledLevel e)))) /\
  (config.Quiet cfg = false -> (0 < v)%Z ->
     exists lvl,
       ((v = 1%Z /\ lvl = config.InfoLevel e) \/
        (v = 2%Z /\ lvl = config.DebugLevel e) \/
        ((3 <= v)%Z /\ lvl = config.TraceLevel e)) /\
       config.parseConfigValues e cfg =
       config.parseFields e
         (config.withLog cfg
            {| config.Structured := config.Structured (config.Log cfg);
               config.LevelOpt := lvl;
               config.Level := lvl;
               config.FileLocation := config.FileLocation (config.Log cfg) |})) /\
  (config.Quiet cfg = false -> (v <= 0)%Z ->
     config.parseConfigValues e cfg =
     match config.LevelFromString e (config.ToLower e (config.Level (config.Log cfg))) with
     | config.Failed err =>
         (cfg, Some (config.ErrBadLogLevel (config.Level (config.Log cfg)) err))
     | config.Done lvl =>
         config.parseFields e
           (config.withLog cfg (config.withLevelOpt (config.Log cfg) lvl))
     end).
Proof.
  intros Hc v. unfold speculateWithUntil in Hc. unfold config.parseConfigValues.
  rewrite Hc. fold v. refine (conj _ (conj _ _)).
  - intros ->. reflexivity.
  - intros -> Hv. apply Z.ltb_lt in Hv as Hv'. rewrite Hv'.
    destruct (Z.eqb_spec v 1) as [E1|N1].
    { eexists. split; [left; eauto|]. reflexivity. }
    destruct (Z.eqb_spec v 2) as [E2|N2].
    { eexists. split; [right; left; eauto|]. reflexivity. }
    destruct (Z.leb_spec 3 v) as [L3|L3]; [|lia].
    eexists. split; [right; right; eauto|]. reflexivity.
  - intros -> Hv. replace (0 <? v)%Z with false; [reflexivity|].
    symmetry. apply Z.ltb_ge. exact Hv.
Qed.

(** [parseConfigValues] leaves the plain fields alone. *)
Lemma parseConfigValues_plainFields (cfg : config.Application G) :
  plainFields (fst (config.parseConfigValues e cfg)) = plainFields cfg.
Proof.
  unfold config.parseConfigValues.
  destruct (config.SpeculateNextVersion cfg && _); [reflexivity|].
  destruct (config.Quiet cfg); [now rewrite parseFields_plainFields|].
  destruct (0 <? _)%Z; [now rewrite parseFields_plainFields|].
  destruct (config.LevelFromString e _); [|reflexivity].
  now rewrite parseFields_plainFields.
Qed.

(** A configuration that is accepted does not have both the flag and the
    until tag. *)
Lemma parseConfigValues_accepted (cfg : config.Application G) :
  snd (config.parseConfigValues e cfg) = None ->
  speculateWithUntil (fst (config.parseConfigValues e cfg)) = false.
Proof.
  intros Hok. pose proof (parseConfigValues_plainFields cfg) as Hplain.
  assert (E : speculateWithUntil (fst (config.parseConfigValues e cfg)) =
              speculateWithUntil cfg).
  { unfold speculateWithUntil. unfold plainFields in Hplain.
    inversion Hplain as [[H1 H2 H3 H4 H5 H6 H7 H8 H9]].
    now rewrite H4, H7. }
  rewrite E. destruct (speculateWithUntil cfg) eqn:Hc; [|reflexivity].
  unfold speculateWithUntil in Hc. unfold config.parseConfigValues in Hok.
  rewrite Hc in Hok. discriminate Hok.
Qed.

End ParseConfigValues.

(** X9.  [parseConfigValues] refuses a configuration that has both
    [--speculate-next-version] and an until tag, before anything else and
    without touching it; it never changes a plain field; and a
    configuration it accepts does not have both. *)
Theorem parseConfigValues_validates (G : Type) (e : config.Env G)
    (cfg : config.Application G) :
  (speculateWithUntil cfg = true ->
     config.parseConfigValues e cfg = (cfg, Some config.ErrSpeculateWithUntil)) /\
  plainFields (fst (config.parseConfigValues e cfg)) = plainFields cfg /\
  (snd (config.parseConfigValues e cfg) = None ->
     speculateWithUntil (fst (config.parseConfigValues e cfg)) = false).
Proof.
  refine (conj _ (conj (parseConfigValues_plainFields G e cfg)
                       (parseConfigValues_accepted G e cfg))).
  unfold speculateWithUntil, config.parseConfigValues. now intros ->.
Qed.

Lemma parseConfigValues_validates_witness :
  speculateWithUntil
    (fst (config.parseConfigValues (sampleEnv noConfigFile (fun c => (c, None)))
            (sampleConfig false 2 "INFO"))) = false.
Proof.
  apply (proj2 (proj2 (parseConfigValues_validates unit
           (sampleEnv noConfigFile (fun c => (c, None)))
           (sampleConfig false 2 "INFO")))).
  reflexivity.
Defined.

(** X10.  The flags decide the log level before the level configured is
    looked at.  With [-q] the level is the disabled one and the level
    text stays; else with a verbosity of 1, 2, or 3 and more the level
    and the level text are info, debug, trace, and the default of the
    switch is never taken.  In both cases the level configured is not
    parsed, so that a bad level text cannot make the configuration fail;
    without parsers of fields it is accepted. *)
Theorem parseConfigValues_flags (G : Type) (e : config.Env G)
    (cfg : config.Application G) :
  speculateWithUntil cfg = false ->
  noFieldParsers e ->
  let v := config.CliOnlyOptions.Verbosity (config.CliOptions cfg) in
  (config.Quiet cfg = true ->
     config.parseConfigValues e cfg =
     (config.withLog cfg
        (config.withLevelOpt (config.Log cfg) (config.DisabledLevel e)), None)) /\
  (config.Quiet cfg = false -> (0 < v)%Z ->
     exists lvl,
       ((v = 1%Z /\ lvl = config.InfoLevel e) \/
        (v = 2%Z /\ lvl = config.DebugLevel e) \/
        ((3 <= v)%Z /\ lvl = config.TraceLevel e)) /\
       config.parseConfigValues e cfg =
       (config.withLog cfg
          {| config.Structured := config.Structured (config.Log cfg);
             config.LevelOpt := lvl;
             config.Level := lvl;
             config.FileLocation := config.FileLocation (config.Log cfg) |},
        None)).
Proof.
  intros Hc Hn v.
  destruct (parseConfigValues_cases G e cfg Hc) as (Hq & Hv & _). split.
  - intros Q. rewrite (Hq Q). now apply parseFields_none.
  - intros Q Hpos. destruct (Hv Q Hpos) as (lvl & Hl & E).
    exists lvl. split; [exact Hl|]. rewrite E. now apply parseFields_none.
Qed.

Lemma parseConfigValues_flags_witness :
  config.parseConfigValues (sampleEnv noConfigFile (fun c => (c, None)))
    (sampleConfig true 2 "no such level") =
  (config.withLog (sampleConfig true 2 "no such level")
     (config.withLevelOpt (config.Log (sampleConfig true 2 "no such level")) ""),
   None).
Proof.
  apply (proj1 (parseConfigValues_flags unit
           (sampleEnv noConfigFile (fun c => (c, None)))
           (sampleConfig true 2 "no such level")
           eq_refl (conj eq_refl (conj eq_refl eq_refl)))).
  reflexivity.
Defined.

(** X11.  Without [-q] and without verbosity the level configured is
    parsed, in lower case: a level text go-logger refuses makes the
    configuration fail, with the text as it was written in the error and
    the configuration untouched; a level text go-logger takes gives the
    level, and the text stays as it was written.  Two spellings with the
    same lower case are refused or taken alike. *)
Theorem parseConfigValues_configured_level (G : Type) (e : config.Env G)
    (cfg : config.Application G) :
  speculateWithUntil cfg = false ->
  noFieldParsers e ->
  config.Quiet cfg = false ->
  (config.CliOnlyOptions.Verbosity (config.CliOptions cfg) <= 0)%Z ->
  (forall err,
     config.LevelFromString e (config.ToLower e (config.Level (config.Log cfg))) =
       config.Failed err ->
     config.parseConfigValues e cfg =
     (cfg, Some (config.ErrBadLogLevel (config.Level (config.Log cfg)) err))) /\
  (forall lvl,
     config.LevelFromString e (config.ToLower e (config.Level (config.Log cfg))) =
       config.Done lvl ->
     config.parseConfigValues e cfg =
     (config.withLog cfg (config.withLevelOpt (config.Log cfg) lvl), None)) /\
  (forall level',
     config.ToLower e level' = config.ToLower e (config.Level (config.Log cfg)) ->
     let cfg' := config.withLog cfg (config.withLevel (config.Log cfg) level') in
     config.LevelOpt (config.Log (fst (config.parseConfigValues e cfg'))) =
       config.LevelOpt (config.Log (fst (config.parseConfigValues e cfg))) /\
     (snd (config.parseConfigValues e cfg') = None <->
      snd (config.parseConfigValues e cfg) = None)).
Proof.
  intros Hc Hn Q Hv.
  destruct (parseConfigValues_cases G e cfg Hc) as (_ & _ & Hl).
  specialize (Hl Q Hv). refine (conj _ (conj _ _)).
  - intros err E. now rewrite Hl, E.
  - intros lvl E. rewrite Hl, E. now apply parseFields_none.
  - intros level' E cfg'.
    assert (Hc' : speculateWithUntil cfg' = false) by exact Hc.
    destruct (parseConfigValues_cases G e cfg' Hc') as (_ & _ & Hl').
    specialize (Hl' Q Hv). rewrite Hl, Hl'.
    change (config.Level (config.Log cfg')) with level'. rewrite E.
    destruct (config.LevelFromString e _) as [lvl|err].
    + rewrite !parseFields_none by exact Hn. now split.
    + cbn [fst snd]. split; [reflexivity|]. split; discriminate.
Qed.

Lemma parseConfigValues_configured_level_witness :
  config.parseConfigValues (sampleEnv noConfigFile (fun c => (c, None)))
    (sampleConfig false 0 "DEBUG") =
  (config.withLog (sampleConfig false 0 "DEBUG")
     (config.withLevelOpt (config.Log (sampleConfig false 0 "DEBUG")) "debug"),
   None).
Proof.
  apply (proj1 (proj2 (parseConfigValues_configured_level unit
           (sampleEnv noConfigFile (fun c => (c, None)))
           (sampleConfig false 0 "DEBUG")
           eq_refl (conj eq_refl (conj eq_refl eq_refl)) eq_refl
           ltac:(discriminate)))).
  reflexivity.
Defined.

(** X12.  The level object of the configuration is derived, not read:
    whatever it was before, [parseConfigValues] fails or succeeds alike
    and, when it succeeds, leaves the same configuration.  Without
    parsers of fields, to parse a configuration a second time changes
    nothing more. *)
Theorem parseConfigValues_level_derived (G : Type) (e : config.Env G)
    (cfg : config.Application G) :
  (forall old,
     let cfg' := config.withLog cfg (config.withLevelOpt (config.Log cfg) old) in
     snd (config.parseConfigValues e cfg') = snd (config.parseConfigValues e cfg) /\
     (snd (config.parseConfigValues e cfg) = None ->
      config.parseConfigValues e cfg' = config.parseConfigValues e cfg)) /\
  (noFieldParsers e ->
     config.parseConfigValues e (fst (config.parseConfigValues e cfg)) =
     config.parseConfigValues e cfg).
Proof.
  split.
  - intros old cfg'. unfold config.parseConfigValues.
    change (config.SpeculateNextVersion cfg') with (config.SpeculateNextVersion cfg).
    change (config.UntilTag cfg') with (config.UntilTag cfg).
    change (config.Quiet cfg') with (config.Quiet cfg).
    change (config.CliOptions cfg') with (config.CliOptions cfg).
    change (config.Level (config.Log cfg')) with (config.Level (config.Log cfg)).
    destruct (config.SpeculateNextVersion cfg && _);
      [split; [reflexivity | discriminate]|].
    destruct (config.Quiet cfg); [now split|].
    destruct (0 <? _)%Z; [now split|].
    destruct (config.LevelFromString e _); [now split|].
    split; [reflexivity | discriminate].
  - intros Hn. unfold config.parseConfigValues.
    destruct (config.SpeculateNextVersion cfg && _) eqn:Hc.
    { cbn [fst]. now rewrite Hc. }
    destruct (config.Quiet cfg) eqn:Q.
    { rewrite !parseFields_none by exact Hn. cbn [fst].
      cbn [config.withLog config.SpeculateNextVersion config.UntilTag
           config.Quiet].
      rewrite Hc, Q. reflexivity. }
    destruct (0 <? _)%Z eqn:V.
    { cbv zeta. rewrite !parseFields_none by exact Hn. cbn [fst].
      cbn [config.withLog config.SpeculateNextVersion config.UntilTag
           config.Quiet config.CliOptions].
      rewrite Hc, Q, V. reflexivity. }
    destruct (config.LevelFromString e _) as [lvl|err] eqn:L.
    + rewrite !parseFields_none by exact Hn. cbn [fst].
      cbn [config.withLog config.withLevelOpt config.SpeculateNextVersion
           config.UntilTag config.Quiet config.CliOptions config.Log
           config.Level].
      rewrite Hc, Q, V, L. now rewrite parseFields_none by exact Hn.
    + cbn [fst]. now rewrite Hc, Q, V, L.
Qed.

Lemma parseConfigValues_level_derived_witness :
  config.parseConfigValues (sampleEnv noConfigFile (fun c => (c, None)))
    (fst (config.parseConfigValues (sampleEnv noConfigFile (fun c => (c, None)))
            (sampleConfig false 3 "warn"))) =
  config.parseConfigValues (sampleEnv noConfigFile (fun c => (c, None)))
    (sampleConfig false 3 "warn").
Proof.
  apply (proj2 (parseConfigValues_level_derived unit
           (sampleEnv noConfigFile (fun c => (c, None)))
           (sampleConfig false 3 "warn"))).
  repeat split.
Defined.

(** ** [readConfig] *)

Section ReadConfig.

Variable G : Type.
Variable e : config.Env G.

Lemma reads_app (a b : list viper.Call) : reads (a ++ b) = reads a + reads b.
Proof. unfold reads. now rewrite filter_app, List.length_app. Qed.

(** One step of the search, run. *)
Lemma tryRead_run (next : config.M (option config.error)) (calls : list viper.Call) :
  config.tryRead e next calls =
  match config.readInConfig e calls with
  | None => (None, calls ++ [viper.ReadInConfig])
  | Some err =>
      if viper.configFileNotFound err
      then next (calls ++ [viper.ReadInConfig])
      else (Some (config.ErrParseConfigFile
                    (config.configFileUsed e (calls ++ [viper.ReadInConfig]))
                    (config.Foreign false (viper.message err))),
            calls ++ [viper.ReadInConfig])
  end.
Proof.
  unfold config.tryRead, config.bind, config.ReadInConfig, config.ConfigFileUsed,
    config.ret.
  destruct (config.readInConfig e calls) as [[nf msg]|]; [|reflexivity].
  cbn [viper.configFileNotFound viper.message config.asConfigFileNotFound].
  now destruct nf.
Qed.

Lemma addConfigPaths_run (dirs : list string) (calls : list viper.Call) :
  config.addConfigPaths e dirs calls =
  (tt, calls ++ map (fun dir => viper.AddConfigPath
                                  (config.pathJoin e dir (config.ApplicationName e)))
                    dirs).
Proof.
  revert calls. induction dirs as [|dir dirs IH]; intros calls.
  - cbn. now rewrite app_nil_r.
  - cbn [config.addConfigPaths map]. unfold config.bind, config.call.
    rewrite IH, <- app_assoc. reflexivity.
Qed.

Lemma reads_addConfigPaths (dirs : list string) :
  reads (map (fun dir => viper.AddConfigPath
                           (config.pathJoin e dir (config.ApplicationName e)))
             dirs) = 0.
Proof. induction dirs as [|dir dirs IH]; [reflexivity | exact IH]. Qed.

End ReadConfig.

Section ReadConfigSearch.

Variable G : Type.
Variable e : config.Env G.

(** A step of the search whose read finds no file goes on. *)
Lemma tryRead_not_found (next : config.M (option config.error))
    (calls : list viper.Call) :
  (forall h, exists msg,
     config.readInConfig e h =
     Some {| viper.configFileNotFound := true; viper.message := msg |}) ->
  config.tryRead e next calls = next (calls ++ [viper.ReadInConfig]).
Proof.
  intros H. rewrite tryRead_run. destruct (H calls) as [msg ->]. reflexivity.
Qed.

(** A step of the search returns what its read calls for, or leaves the
    return to the steps that follow. *)
Lemma justified_tryRead (before : list viper.Call) (k : nat)
    (next : config.M (option config.error)) (calls : list viper.Call) :
  reads before <= reads calls ->
  reads calls + 1 <= reads before + k ->
  (forall msg,
     config.readInConfig e calls =
       Some {| viper.configFileNotFound := true; viper.message := msg |} ->
     justified e before k (next (calls ++ [viper.ReadInConfig]))) ->
  justified e before k (config.tryRead e next calls).
Proof.
  intros Hlo Hhi Hnext. rewrite tryRead_run.
  assert (Hr : reads (calls ++ [viper.ReadInConfig]) = reads calls + 1)
    by (rewrite reads_app; reflexivity).
  destruct (config.readInConfig e calls) as [[[|] msg]|] eqn:E.
  - cbn [viper.configFileNotFound]. now apply (Hnext msg).
  - exists calls. cbn [fst snd viper.configFileNotFound viper.message].
    rewrite Hr. repeat split; try lia. exact E.
  - exists calls. cbn [fst snd]. rewrite Hr. repeat split; try lia. exact E.
Qed.

End ReadConfigSearch.

(** The run of [readConfig] with a configuration path. *)
Lemma readConfig_explicit_run (G : Type) (e : config.Env G)
    (configPath : string) (calls : list viper.Call) :
  configPath <> "" ->
  let before := calls ++ envCalls e ++ [viper.SetConfigFile configPath] in
  config.readConfig e configPath calls =
    (match config.readInConfig e before with
     | None => None
     | Some err =>
         Some (config.ErrReadConfig configPath
                 (config.Foreign (viper.configFileNotFound err) (viper.message err)))
     end,
     before ++ [viper.ReadInConfig]).
Proof.
  intros Hne before. apply String.eqb_neq in Hne.
  unfold config.readConfig, config.bind, config.call, config.ReadInConfig,
    config.ret.
  rewrite Hne. cbn [negb]. unfold before, envCalls.
  rewrite <- !app_assoc. cbn [app].
  now destruct (config.readInConfig e _).
Qed.

(** X13.  With a configuration path given, [readConfig] sets that file,
    reads once and searches nowhere else.  A failure of the read is
    returned wrapped with the path, and it is never the error of no
    configuration found, also when viper reports the file as not found. *)
Theorem readConfig_explicit_path (G : Type) (e : config.Env G)
    (configPath : string) (calls : list viper.Call) :
  configPath <> "" ->
  let before := calls ++ envCalls e ++ [viper.SetConfigFile configPath] in
  config.readConfig e configPath calls =
    (match config.readInConfig e before with
     | None => None
     | Some err =>
         Some (config.ErrReadConfig configPath
                 (config.Foreign (viper.configFileNotFound err) (viper.message err)))
     end,
     before ++ [viper.ReadInConfig]) /\
  (forall err,
     fst (config.readConfig e configPath calls) = Some err ->
     config.isApplicationConfigNotFound err = false).
Proof.
  intros Hne before.
  pose proof (readConfig_explicit_run G e configPath calls Hne) as E.
  split; [exact E|]. rewrite E. cbn [fst]. fold before.
  destruct (config.readInConfig e before); [|discriminate].
  intros err H. inversion H. reflexivity.
Qed.

Lemma readConfig_explicit_path_witness :
  config.readConfig (sampleEnv noConfigFile (fun c => (c, None)))
    "chronicle.yaml" [] =
  (Some (config.ErrReadConfig "chronicle.yaml"
           (config.Foreign true "Config File Not Found")),
   [ viper.AutomaticEnv; viper.SetEnvPrefix "chronicle";
     viper.SetEnvKeyReplacer ["."; "_"; "-"; "_"];
     viper.SetConfigFile "chronicle.yaml"; viper.ReadInConfig ]).
Proof.
  apply (proj1 (readConfig_explicit_path unit
           (sampleEnv noConfigFile (fun c => (c, None)))
           "chronicle.yaml" [] ltac:(discriminate))).
Defined.

(** The run of the whole search when no read finds a file. *)
Lemma readConfig_search_run (G : Type) (e : config.Env G)
    (calls : list viper.Call) :
  (forall h, exists msg,
     config.readInConfig e h =
     Some {| viper.configFileNotFound := true; viper.message := msg |}) ->
  config.readConfig e "" calls =
  (Some config.ErrApplicationConfigNotFound,
   calls ++ envCalls e ++ searchCalls e).
Proof.
  intros H. unfold config.readConfig, config.searchXdg.
  cbn [String.eqb negb]. unfold config.bind at 1 2 3 4 5. unfold config.call.
  rewrite (tryRead_not_found G e _ _ H).
  unfold config.bind at 1 2.
  rewrite (tryRead_not_found G e _ _ H).
  unfold searchCalls, envCalls.
  destruct (config.homedirDir e) as [home|err].
  - unfold config.bind at 1 2.
    rewrite (tryRead_not_found G e _ _ H).
    unfold config.bind. rewrite addConfigPaths_run.
    rewrite (tryRead_not_found G e _ _ H).
    unfold config.ret. rewrite <- !app_assoc. reflexivity.
  - unfold config.bind. rewrite addConfigPaths_run.
    rewrite (tryRead_not_found G e _ _ H).
    unfold config.ret. rewrite <- !app_assoc. reflexivity.
Qed.



(** X15.  Without a configuration path, [readConfig] makes between one
    and four reads and stops at a read that succeeds or that fails for
    another reason than a file not found; what it returns is what its
    last read calls for: no error when that read succeeded, the error of
    that read wrapped with the file viper names when it failed for
    another reason, and the error of no configuration found only when
    that read, like those before it, found no file. *)
Theorem readConfig_search_justified (G : Type) (e : config.Env G)
    (calls : list viper.Call) :
  justified e calls 4 (config.readConfig e "" calls).
Proof.
  unfold config.readConfig, config.searchXdg.
  cbn [String.eqb negb]. unfold config.bind at 1 2 3 4 5. unfold config.call.
  assert (Hxdg : forall c,
            reads calls <= reads c -> reads c + 1 <= reads calls + 4 ->
            justified e calls 4
              (config.bind
                 (fun calls0 =>
                    (tt, calls0 ++
                         [viper.AddConfigPath
                            (config.pathJoin e (config.xdgConfigHome e)
                               (config.ApplicationName e))]))
                 (fun _ =>
                    config.bind (config.addConfigPaths e (config.xdgConfigDirs e))
                      (fun _ =>
                         config.bind
                           (fun calls0 =>
                              (tt, calls0 ++ [viper.SetConfigName "config"]))
                           (fun _ =>
                              config.tryRead e
                                (config.ret
                                   (Some config.ErrApplicationConfigNotFound)))))
                 c)).
  { intros c Hlo Hhi. unfold config.bind. rewrite addConfigPaths_run.
    apply justified_tryRead.
    - rewrite !reads_app, reads_addConfigPaths. cbn. lia.
    - rewrite !reads_app, reads_addConfigPaths. cbn. lia.
    - intros msg E. unfold config.ret. eexists. cbn [fst snd].
      split; [reflexivity|]. split; [|now exists msg].
      rewrite !reads_app, reads_addConfigPaths. cbn. lia. }
  apply justified_tryRead.
  - rewrite !reads_app. cbn. lia.
  - rewrite !reads_app. cbn. lia.
  - intros _ _. unfold config.bind at 1 2.
    apply justified_tryRead.
    + rewrite !reads_app. cbn. lia.
    + rewrite !reads_app. cbn. lia.
    + intros _ _. destruct (config.homedirDir e) as [home|err].
      * unfold config.bind at 1 2. apply justified_tryRead.
        -- rewrite !reads_app. cbn. lia.
        -- rewrite !reads_app. cbn. lia.
        -- intros _ _. apply Hxdg; rewrite !reads_app; cbn; lia.
      * apply Hxdg; rewrite !reads_app; cbn; lia.
Qed.

(** ** [LoadApplicationConfig] *)

Section LoadApplicationConfig.

Variable G : Type.
Variable e : config.Env G.

(** What the end of [LoadApplicationConfig] returns. *)
Lemma finishLoad_outcome (config0 : config.Application G) (calls : list viper.Call) :
  snd (config.finishLoad e config0 calls) = calls ++ [viper.Unmarshal] /\
  ((exists err, fst (config.finishLoad e config0 calls) = (None, Some err)) \/
   (exists cfg,
      fst (config.finishLoad e config0 calls) = (Some cfg, None) /\
      speculateWithUntil cfg = false /\
      config.ConfigPath cfg = config.configFileUsed e (calls ++ [viper.Unmarshal]) /\
      exists loaded,
        config.unmarshal e calls config0 = (loaded, None) /\
        config.parseConfigValues e
          (config.withConfigPath loaded
             (config.configFileUsed e (calls ++ [viper.Unmarshal]))) =
        (cfg, None))).
Proof.
  unfold config.finishLoad, config.bind, config.Unmarshal, config.ConfigFileUsed,
    config.ret.
  destruct (config.unmarshal e calls config0) as [loaded [err|]].
  { split; [reflexivity|]. left. now exists (config.ErrUnmarshal err). }
  set (cfg1 := config.withConfigPath loaded _).
  pose proof (parseConfigValues_plainFields G e cfg1) as Hplain.
  pose proof (parseConfigValues_accepted G e cfg1) as Hok.
  destruct (config.parseConfigValues e cfg1) as [cfg [err|]] eqn:E.
  { split; [reflexivity|]. left. now exists (config.ErrInvalidConfig err). }
  split; [reflexivity|]. right. exists cfg. cbn [fst snd] in *.
  split; [reflexivity|]. split; [now apply Hok|]. split.
  - unfold plainFields in Hplain. now inversion Hplain.
  - now exists loaded.
Qed.

End LoadApplicationConfig.



(** X17.  [LoadApplicationConfig] returns a configuration or an error,
    never both and never neither.  A configuration that is returned was
    unmarshalled last of all, names as its path the file viper used and
    not the path of the command line, and does not have both
    [--speculate-next-version] and an until tag. *)
Theorem LoadApplicationConfig_outcome (G : Type) (e : config.Env G)
    (cliOpts : config.CliOnlyOptions.t) (calls : list viper.Call) :
  (exists err,
     fst (config.LoadApplicationConfig e cliOpts calls) = (None, Some err)) \/
  (exists cfg,
     fst (config.LoadApplicationConfig e cliOpts calls) = (Some cfg, None) /\
     speculateWithUntil cfg = false /\
     config.ConfigPath cfg =
       config.configFileUsed e (snd (config.LoadApplicationConfig e cliOpts calls)) /\
     exists h,
       snd (config.LoadApplicationConfig e cliOpts calls) = h ++ [viper.Unmarshal]).
Proof.
  unfold config.LoadApplicationConfig, config.bind.
  destruct (config.newApplicationConfig e cliOpts calls) as [config0 start].
  destruct (config.readConfig e _ start) as [err calls1].
  assert (Hfinish :
    (exists err0, fst (config.finishLoad e config0 calls1) = (None, Some err0)) \/
    (exists cfg,
       fst (config.finishLoad e config0 calls1) = (Some cfg, None) /\
       speculateWithUntil cfg = false /\
       config.ConfigPath cfg =
         config.configFileUsed e (snd (config.finishLoad e config0 calls1)) /\
       exists h, snd (config.finishLoad e config0 calls1) = h ++ [viper.Unmarshal])).
  { destruct (finishLoad_outcome G e config0 calls1)
      as [Hs [Herr | (cfg & H1 & H2 & H3 & _)]]; [now left|].
    right. exists cfg. rewrite Hs. repeat split; try assumption.
    now exists calls1. }
  destruct err as [err|]; [|exact Hfinish].
  destruct (negb (config.isApplicationConfigNotFound err)); [|exact Hfinish].
  left. now exists err.
Qed.
